(** * Verification of [database/db_utils.py]

    A shallow embedding of the [DatabaseUtils] helpers that drive the
    proposal -> mission -> step pipeline and the trigger evaluator,
    together with the properties proved about them.

    Layout:
    - Python values and the comparison operators the code applies to them;
    - exceptions and the two monads (pure results, database connection);
    - the tables touched by the SQL statements;
    - the functions of [DatabaseUtils], statement by statement;
    - the theorems. *)

From Stdlib Require Import List String Ascii Bool ZArith NArith QArith Lia.
From Stdlib Require Import Sorting.Sorted Sorting.Permutation DecimalString.
Import ListNotations.

Local Open Scope string_scope.
Local Open Scope list_scope.

(* ===================================================================== *)
(** * Python values *)
(* ===================================================================== *)

(** The values of JSON: what a [jsonb] column holds, what [json.loads]
    gives back from one and what a [%s::jsonb] parameter accepts.
    Numbers are rationals: every [int] and every finite [float] is one,
    and Python compares the two kinds exactly.  The non-finite floats
    ([nan], [inf]) are not JSON and are not represented: PostgreSQL
    refuses them in a [jsonb] value, so no condition tree read from the
    store holds one.  Event records are taken to be JSON as well; one
    built by a caller around a [nan] is outside these values.  A [str]
    is its UTF-8 bytes (bytewise order is code-point order).  A [dict] is
    an association list in insertion order, which is the order
    [.items()] walks. *)
#[warnings="-register-all"]
Inductive pyval : Type :=
| PNone
| PBool (b : bool)
| PNum (q : Q)
| PStr (s : string)
| PList (l : list pyval)
| PDict (d : list (string * pyval)).

Definition dict := list (string * pyval).

(** [key in d] / [d[key]] / [d.get(key)]. *)
Fixpoint dict_get (d : dict) (key : string) : option pyval :=
  match d with
  | [] => None
  | (k, v) :: rest => if String.eqb k key then Some v else dict_get rest key
  end.

(** [d.get(key, default)]. *)
Definition dict_get_default (d : dict) (key : string) (default : pyval) : pyval :=
  match dict_get d key with
  | Some v => v
  | None => default
  end.

(** [bool] is a subclass of [int]: [True] is [1], [False] is [0]. *)
Definition num_of (v : pyval) : option Q :=
  match v with
  | PBool true => Some 1%Q
  | PBool false => Some 0%Q
  | PNum q => Some q
  | _ => None
  end.

(** Python [==]. *)
Fixpoint py_eq (a b : pyval) {struct a} : bool :=
  match a, b with
  | PNone, PNone => true
  | PStr s, PStr t => String.eqb s t
  | PList l1, PList l2 =>
      (fix list_eq (xs ys : list pyval) {struct xs} : bool :=
         match xs, ys with
         | [], [] => true
         | x :: xs', y :: ys' => py_eq x y && list_eq xs' ys'
         | _, _ => false
         end) l1 l2
  | PDict d1, PDict d2 =>
      Nat.eqb (List.length d1) (List.length d2) &&
      (fix items_eq (kvs : list (string * pyval)) {struct kvs} : bool :=
         match kvs with
         | [] => true
         | (k, v) :: kvs' =>
             match dict_get d2 k with
             | Some w => py_eq v w && items_eq kvs'
             | None => false
             end
         end) d1
  | PBool _, _ | PNum _, _ =>
      match num_of a, num_of b with
      | Some x, Some y => Qeq_bool x y
      | _, _ => false
      end
  | _, _ => false
  end.

(** Python [!=]. *)
Definition py_ne (a b : pyval) : bool := negb (py_eq a b).

(** Truth value of an object, as tested by [if x:] and [x if c else y]. *)
Definition py_truthy (v : pyval) : bool :=
  match v with
  | PNone => false
  | PBool b => b
  | PNum q => negb (Qeq_bool q 0)
  | PStr s => negb (String.eqb s EmptyString)
  | PList l => match l with [] => false | _ => true end
  | PDict d => match d with [] => false | _ => true end
  end.

(** Truth value of an [Optional[str]] argument. *)
Definition str_truthy (o : option string) : bool :=
  match o with
  | Some s => negb (String.eqb s EmptyString)
  | None => false
  end.

(** Truth value of an [Optional[Dict]] argument. *)
Definition opt_truthy (o : option pyval) : bool :=
  match o with
  | Some v => py_truthy v
  | None => false
  end.

(* ===================================================================== *)
(** * Exceptions and results *)
(* ===================================================================== *)

Inductive exn : Type :=
| ValueError (msg : string)
| TypeError
| AttributeError
| DataError.

Inductive result (A : Type) : Type :=
| Ok (a : A)
| Raise (e : exn).
Arguments Ok {A} a.
Arguments Raise {A} e.

Definition rbind {A B} (m : result A) (k : A -> result B) : result B :=
  match m with
  | Ok a => k a
  | Raise e => Raise e
  end.

Notation "'let?' x ':=' m 'in' k" := (rbind m (fun x => k))
  (at level 10, x name, m at level 100, k at level 200).

(** ** The ordering operators

    One of [<=], [<], [>=], [>] is given by the set of three-way
    comparison outcomes it accepts.  Ordering is defined between numbers
    (booleans included), between strings and between lists; every other
    pairing raises [TypeError].  Lists compare at the first index whose
    elements are not [==], or by length when one is a prefix of the
    other. *)
Definition accepts_le (c : comparison) : bool := match c with Gt => false | _ => true end.
Definition accepts_lt (c : comparison) : bool := match c with Lt => true | _ => false end.
Definition accepts_ge (c : comparison) : bool := match c with Lt => false | _ => true end.
Definition accepts_gt (c : comparison) : bool := match c with Gt => true | _ => false end.

Fixpoint py_order (acc : comparison -> bool) (a b : pyval) {struct a} : result bool :=
  match a, b with
  | PStr s, PStr t => Ok (acc (String.compare s t))
  | PList l1, PList l2 =>
      (fix list_order (xs ys : list pyval) {struct xs} : result bool :=
         match xs, ys with
         | x :: xs', y :: ys' =>
             if py_eq x y then list_order xs' ys' else py_order acc x y
         | _, _ => Ok (acc (Nat.compare (List.length xs) (List.length ys)))
         end) l1 l2
  | PBool _, _ | PNum _, _ =>
      match num_of a, num_of b with
      | Some x, Some y => Ok (acc (Qcompare x y))
      | _, _ => Raise TypeError
      end
  | _, _ => Raise TypeError
  end.

Definition py_le := py_order accepts_le.
Definition py_lt := py_order accepts_lt.
Definition py_ge := py_order accepts_ge.
Definition py_gt := py_order accepts_gt.

(** [obj.items()]: only a mapping has it. *)
Definition py_items (v : pyval) : result dict :=
  match v with
  | PDict d => Ok d
  | _ => Raise AttributeError
  end.

(* ===================================================================== *)
(** * The relational store *)
(* ===================================================================== *)

(** Primary keys.  The database generates them; here they are drawn from
    a counter kept by the connection. *)
Definition uuid := N.

(** [str(uuid)]. *)
Definition uuid_str (u : uuid) : string :=
  NilEmpty.string_of_uint (N.to_uint u).

(** Timestamps are microseconds on the database clock. *)
Definition timestamp := Z.
Definition minute : Z := 60000000.

Inductive proposal_status := pending | accepted | rejected.
Inductive mission_status := mission_running | mission_succeeded | mission_failed.
Inductive step_status := queued | running | succeeded | failed.

Definition proposal_status_eqb (a b : proposal_status) : bool :=
  match a, b with
  | pending, pending | accepted, accepted | rejected, rejected => true
  | _, _ => false
  end.

Definition step_status_eqb (a b : step_status) : bool :=
  match a, b with
  | queued, queued | running, running
  | succeeded, succeeded | failed, failed => true
  | _, _ => false
  end.

(** The columns of [ops_trading_proposals] that the statements below read
    or write.  A [jsonb] column is held decoded, so [json.dumps] on the
    way in and [json.loads] on the way out are both the identity. *)
Record proposal_row := mk_proposal {
  p_id : uuid;
  p_agent_id : string;
  p_title : string;
  p_signal_type : string;
  p_proposed_steps : pyval;
  p_status : proposal_status;
  p_accepted_at : option timestamp
}.

Record mission_row := mk_mission {
  m_id : uuid;
  m_title : string;
  m_created_by : string;
  m_mission_type : string;
  m_proposal_id : option uuid;
  m_metadata : pyval;
  m_status : mission_status;
  m_created_at : timestamp;
  m_completed_at : option timestamp
}.

(** [s_kind] and [s_assigned_to] hold the parameter as the code passed it
    (how a driver adapts a non-text parameter is not in the source);
    [PNone] is SQL [NULL]. *)
Record step_row := mk_step {
  s_id : uuid;
  s_mission_id : uuid;
  s_kind : pyval;
  s_payload : pyval;
  s_assigned_to : pyval;
  s_status : step_status;
  s_timeout_at : option timestamp;
  s_result : option pyval;
  s_error : option string;
  s_created_at : timestamp;
  s_started_at : option timestamp;
  s_completed_at : option timestamp
}.

Record trigger_row := mk_trigger {
  tr_id : uuid;
  tr_enabled : bool;
  tr_trigger_event : string;
  tr_conditions : pyval;
  tr_cooldown_minutes : Z;
  tr_last_fired_at : option timestamp
}.

(** Tables keep their rows in insertion order. *)
Record tables := mk_tables {
  ops_trading_proposals : list proposal_row;
  ops_missions : list mission_row;
  ops_mission_steps : list step_row;
  ops_trigger_rules : list trigger_row
}.

(** The [db] handle.  [committed] is what other sessions see; [txn] is
    the working copy of an open transaction.  Outside a transaction each
    statement commits on its own.  [step_ttl] is the schema's default for
    [timeout_at], as an offset from [NOW()] ([None]: the column defaults
    to [NULL]); the schema is not part of the source. *)
Record conn := mk_conn {
  committed : tables;
  txn : option tables;
  next_uuid : uuid;
  clock : timestamp;
  step_ttl : option Z
}.

(** The tables a statement of this session reads and writes. *)
Definition visible (c : conn) : tables :=
  match txn c with
  | Some t => t
  | None => committed c
  end.

Definition put_visible (t : tables) (c : conn) : conn :=
  match txn c with
  | Some _ => mk_conn (committed c) (Some t) (next_uuid c) (clock c) (step_ttl c)
  | None => mk_conn t None (next_uuid c) (clock c) (step_ttl c)
  end.

(** ** The connection monad: state that survives an exception *)

Definition M (A : Type) : Type := conn -> conn * result A.

Definition ret {A} (a : A) : M A := fun c => (c, Ok a).

Definition bind {A B} (m : M A) (k : A -> M B) : M B :=
  fun c =>
    match m c with
    | (c', Ok a) => k a c'
    | (c', Raise e) => (c', Raise e)
    end.

Definition raise {A} (e : exn) : M A := fun c => (c, Raise e).

(** [try: body / except Exception as e: handler(e)]. *)
Definition try_except {A} (body : M A) (handler : exn -> M A) : M A :=
  fun c =>
    match body c with
    | (c', Ok a) => (c', Ok a)
    | (c', Raise e) => handler e c'
    end.

Definition lift {A} (r : result A) : M A := fun c => (c, r).

Declare Scope db_scope.
Delimit Scope db_scope with db.
Notation "x <- m ;; k" := (bind m (fun x => k))
  (at level 61, m at next level, right associativity) : db_scope.
Notation "m ;; k" := (bind m (fun _ => k))
  (at level 61, right associativity) : db_scope.

Local Open Scope db_scope.

(** [for x in xs: body(x)]. *)
Fixpoint for_each {A} (xs : list A) (body : A -> M unit) : M unit :=
  match xs with
  | [] => ret tt
  | x :: rest => body x ;; for_each rest body
  end.

(** ** Statements *)

Definition sql_now : M timestamp := fun c => (c, Ok (clock c)).

(** Modelled from the spec: the schema is not in the source; a row's id
    is generated by the database and no two rows get the same one. *)
Definition gen_uuid : M uuid :=
  fun c => (mk_conn (committed c) (txn c) (N.succ (next_uuid c)) (clock c) (step_ttl c),
            Ok (next_uuid c)).

Definition sql_query {A} (q : tables -> A) : M A :=
  fun c => (c, Ok (q (visible c))).

Definition sql_write (f : tables -> tables) : M unit :=
  fun c => (put_visible (f (visible c)) c, Ok tt).

(** [BEGIN]; inside a transaction it only warns. *)
Definition sql_begin : M unit :=
  fun c => (mk_conn (committed c) (Some (visible c)) (next_uuid c) (clock c) (step_ttl c),
            Ok tt).

Definition sql_commit : M unit :=
  fun c => (mk_conn (visible c) None (next_uuid c) (clock c) (step_ttl c), Ok tt).

Definition sql_rollback : M unit :=
  fun c => (mk_conn (committed c) None (next_uuid c) (clock c) (step_ttl c), Ok tt).

Definition set_proposals (t : tables) (l : list proposal_row) : tables :=
  mk_tables l (ops_missions t) (ops_mission_steps t) (ops_trigger_rules t).
Definition set_missions (t : tables) (l : list mission_row) : tables :=
  mk_tables (ops_trading_proposals t) l (ops_mission_steps t) (ops_trigger_rules t).
Definition set_steps (t : tables) (l : list step_row) : tables :=
  mk_tables (ops_trading_proposals t) (ops_missions t) l (ops_trigger_rules t).

(** [UPDATE ... SET ... WHERE ...]: every row the [WHERE] clause accepts
    is rewritten, the others are kept, positions do not change. *)
Definition update_where {R} (where_ : R -> bool) (set : R -> R) (rows : list R) : list R :=
  map (fun r => if where_ r then set r else r) rows.

(** Comparison of a text column with a [str] parameter; [NULL] and
    non-text contents equal nothing. *)
Definition text_eq (col : pyval) (param : string) : bool :=
  match col with
  | PStr s => String.eqb s param
  | _ => false
  end.

(** [ORDER BY key ASC], as an insertion sort.  SQL leaves the order of
    rows with equal keys open; here they come out in reverse table
    order. *)
Fixpoint insert_by {R} (key : R -> Z) (x : R) (sorted : list R) : list R :=
  match sorted with
  | [] => [x]
  | y :: rest => if (key x <? key y)%Z then x :: y :: rest
                 else y :: insert_by key x rest
  end.

Definition order_by {R} (key : R -> Z) (rows : list R) : list R :=
  fold_right (fun x acc => insert_by key x acc) [] rows.

(** [str.__iter__]: the one-character strings. *)
Fixpoint str_chars (s : string) : list pyval :=
  match s with
  | EmptyString => []
  | String ch rest => PStr (String ch EmptyString) :: str_chars rest
  end.

(** What a [for] statement walks: a list's elements, a dict's keys, a
    string's characters; anything else is not iterable. *)
Definition py_iter (v : pyval) : result (list pyval) :=
  match v with
  | PList l => Ok l
  | PDict d => Ok (map (fun kv => PStr (fst kv)) d)
  | PStr s => Ok (str_chars s)
  | _ => Raise TypeError
  end.

(** [obj.get(key, default)]: only a mapping has it. *)
Definition py_get (v : pyval) (key : string) (default : pyval) : result pyval :=
  match v with
  | PDict d => Ok (dict_get_default d key default)
  | _ => Raise AttributeError
  end.

(* ===================================================================== *)
(** * [class DatabaseUtils] *)
(* ===================================================================== *)

Module DatabaseUtils.

(** ** [_check_conditions] *)


(** One pass of the body of [for op, value in condition.items()]:
    [Ok true] when one of the three guarded [return False] fires.
    [and] evaluates its right operand only when the left one is true. *)
Definition op_rejects (ev : pyval) (op : string) (value : pyval) : result bool :=
  let? gt_fails := (if String.eqb op "$gt" then py_le ev value else Ok false) in
  if gt_fails then Ok true else
  let? lt_fails := (if String.eqb op "$lt" then py_ge ev value else Ok false) in
  if lt_fails then Ok true else
  let? eq_fails := (if String.eqb op "$eq" then Ok (py_ne ev value) else Ok false) in
  Ok eq_fails.

(** The inner loop; [Ok false] stands for the early [return False]. *)
Fixpoint check_operators (ev : pyval) (ops : dict) : result bool :=
  match ops with
  | [] => Ok true
  | (op, value) :: rest =>
      let? rejected := op_rejects ev op value in
      if rejected then Ok false else check_operators ev rest
  end.

(** The outer loop over [conditions.items()]. *)
Fixpoint check_items (event_data : dict) (items : dict) : result bool :=
  match items with
  | [] => Ok true
  | (key, condition) :: rest =>
      match dict_get event_data key with
      | Some ev =>
          match condition with
          | PDict ops =>
              let? passed := check_operators ev ops in
              if passed then check_items event_data rest else Ok false
          | _ =>
              if py_ne ev condition then Ok false
              else check_items event_data rest
          end
      | None => check_items event_data rest
      end
  end.

Definition _check_conditions (event_data : dict) (conditions : pyval) : result bool :=
  let? items := py_items conditions in
  check_items event_data items.


(** ** [create_mission_from_proposal] *)

(** [SELECT title, agent_id, signal_type, proposed_steps
     FROM ops_trading_proposals
     WHERE id = %s AND status = 'accepted' FOR UPDATE], then [fetchone()]. *)
Definition select_accepted_proposal (proposal_id : uuid) : M (option proposal_row) :=
  sql_query (fun t =>
    find (fun p => N.eqb (p_id p) proposal_id && proposal_status_eqb (p_status p) accepted)
         (ops_trading_proposals t)).

(** Modelled from the spec: the schema is not in the source; a mission is
    created [running] (its status only ever moves from running to
    succeeded or failed) and takes the statement's [NOW()] as creation
    time.

    [INSERT INTO ops_missions (title, created_by, mission_type,
     proposal_id, metadata) VALUES (%s, %s, 'entry', %s, %s::jsonb)
     RETURNING id]. *)
Definition insert_mission (title created_by : string) (proposal_id : uuid)
    (metadata : pyval) : M uuid :=
  id <- gen_uuid ;;
  now <- sql_now ;;
  sql_write (fun t => set_missions t (ops_missions t ++
    [mk_mission id title created_by "entry" (Some proposal_id) metadata
                mission_running now None])) ;;
  ret id.

(** Modelled from the spec: the schema is not in the source; a step is
    created [queued], with no result, error, start or completion time,
    with the statement's [NOW()] as creation time and the schema default
    as timeout deadline.

    [INSERT INTO ops_mission_steps (mission_id, kind, payload, assigned_to)
     VALUES (%s, %s, %s::jsonb, %s)]. *)
Definition new_step (id mission_id : uuid) (kind payload assigned_to : pyval)
    (now : timestamp) (ttl : option Z) : step_row :=
  mk_step id mission_id kind payload assigned_to queued
          (option_map (fun d => (now + d)%Z) ttl) None None now None None.

Definition insert_step (mission_id : uuid) (kind payload assigned_to : pyval) : M unit :=
  id <- gen_uuid ;;
  now <- sql_now ;;
  ttl <- (fun c => (c, Ok (step_ttl c))) ;;
  sql_write (fun t => set_steps t (ops_mission_steps t ++
    [new_step id mission_id kind payload assigned_to now ttl])).

(** [UPDATE ops_trading_proposals SET status = 'accepted',
     accepted_at = NOW() WHERE id = %s]. *)
Definition mark_proposal_accepted (proposal_id : uuid) : M unit :=
  now <- sql_now ;;
  sql_write (fun t => set_proposals t
    (update_where (fun p => N.eqb (p_id p) proposal_id)
       (fun p => mk_proposal (p_id p) (p_agent_id p) (p_title p) (p_signal_type p)
                             (p_proposed_steps p) accepted (Some now))
       (ops_trading_proposals t))).

(** The body of [for step in steps]. *)
Definition create_step (mission_id : uuid) (step : pyval) : M unit :=
  kind <- lift (py_get step "kind" (PStr "analyze")) ;;
  payload <- lift (py_get step "payload" (PDict [])) ;;
  assigned_to <- lift (py_get step "assigned_to" PNone) ;;
  insert_step mission_id kind payload assigned_to.

Definition create_mission_from_proposal (proposal_id : uuid) (created_by : string)
    : M uuid :=
  sql_begin ;;
  try_except
    (proposal <- select_accepted_proposal proposal_id ;;
     match proposal with
     | None => raise (ValueError "Proposal not found or not accepted")
     | Some proposal =>
         let metadata := PDict [("source_proposal", PStr (uuid_str proposal_id));
                                ("original_agent", PStr (p_agent_id proposal));
                                ("signal_type", PStr (p_signal_type proposal))] in
         mission_id <- insert_mission (p_title proposal) created_by proposal_id metadata ;;
         steps <- lift (py_iter (p_proposed_steps proposal)) ;;
         for_each steps (create_step mission_id) ;;
         mark_proposal_accepted proposal_id ;;
         sql_commit ;;
         ret mission_id
     end)
    (fun e => sql_rollback ;; raise e).

(** ** [get_queued_steps] *)

(** A row of the join: [s.*, m.title as mission_title, m.created_by]. *)
Record queued_row := mk_queued {
  q_step : step_row;
  q_mission_title : string;
  q_created_by : string
}.

(** [s.timeout_at > NOW()]; a [NULL] deadline compares as unknown and the
    row is dropped. *)
Definition deadline_ahead (now : timestamp) (s : step_row) : bool :=
  match s_timeout_at s with
  | Some t => (now <? t)%Z
  | None => false
  end.

(** [FROM ops_mission_steps s JOIN ops_missions m ON s.mission_id = m.id
     WHERE <where_>]. *)
Definition join_missions (where_ : step_row -> bool) (t : tables) : list queued_row :=
  flat_map (fun s =>
      map (fun m => mk_queued s (m_title m) (m_created_by m))
          (filter (fun m => N.eqb (s_mission_id s) (m_id m)) (ops_missions t)))
    (filter where_ (ops_mission_steps t)).

(** [... ORDER BY s.created_at ASC LIMIT %s]; a negative [LIMIT] is
    refused by the database. *)
Definition select_queued (where_ : step_row -> bool) (limit : Z) : M (list queued_row) :=
  if (limit <? 0)%Z then raise DataError
  else sql_query (fun t =>
    firstn (Z.to_nat limit)
      (order_by (fun q => s_created_at (q_step q)) (join_missions where_ t))).

Definition get_queued_steps (kind : option string) (limit : Z) : M (list queued_row) :=
  now <- sql_now ;;
  let base := fun s => step_status_eqb (s_status s) queued && deadline_ahead now s in
  let where_ :=
    if str_truthy kind
    then fun s => base s && match kind with
                            | Some k => text_eq (s_kind s) k
                            | None => false
                            end
    else base in
  select_queued where_ limit.

(** ** [claim_step] *)

(** [UPDATE ops_mission_steps SET ... WHERE ... RETURNING col]: the
    returned column of every rewritten row; [rowcount] is their number. *)
Definition update_steps_returning {A} (where_ : step_row -> bool)
    (set : step_row -> step_row) (returning : step_row -> A) : M (list A) :=
  hit <- sql_query (fun t => filter where_ (ops_mission_steps t)) ;;
  sql_write (fun t => set_steps t (update_where where_ set (ops_mission_steps t))) ;;
  ret (map returning (map set hit)).

Definition claimed (assigned_to : string) (now : timestamp) (s : step_row) : step_row :=
  mk_step (s_id s) (s_mission_id s) (s_kind s) (s_payload s) (PStr assigned_to) running
          (s_timeout_at s) (s_result s) (s_error s) (s_created_at s) (Some now)
          (s_completed_at s).

Definition claim_step (step_id : uuid) (assigned_to : string) : M bool :=
  now <- sql_now ;;
  result <- update_steps_returning
    (fun s => N.eqb (s_id s) step_id && step_status_eqb (s_status s) queued)
    (claimed assigned_to now) s_id ;;
  ret (0 <? List.length result)%nat.

(** ** [complete_step] *)

Definition completed (status : step_status) (result_json : option pyval)
    (error : option string) (now : timestamp) (s : step_row) : step_row :=
  mk_step (s_id s) (s_mission_id s) (s_kind s) (s_payload s) (s_assigned_to s) status
          (s_timeout_at s) result_json error (s_created_at s) (s_started_at s)
          (Some now).

(** [SELECT COUNT( * ) FROM ops_mission_steps
     WHERE mission_id = %s AND status IN ('queued', 'running')]. *)
Definition is_pending (mission_id : uuid) (s : step_row) : bool :=
  N.eqb (s_mission_id s) mission_id &&
  (step_status_eqb (s_status s) queued || step_status_eqb (s_status s) running).

Definition count_pending (mission_id : uuid) : M nat :=
  sql_query (fun t => List.length (filter (is_pending mission_id) (ops_mission_steps t))).

(** [UPDATE ops_missions SET status = 'succeeded', completed_at = NOW()
     WHERE id = %s]. *)
Definition mark_mission_succeeded (mission_id : uuid) : M unit :=
  now <- sql_now ;;
  sql_write (fun t => set_missions t
    (update_where (fun m => N.eqb (m_id m) mission_id)
       (fun m => mk_mission (m_id m) (m_title m) (m_created_by m) (m_mission_type m)
                            (m_proposal_id m) (m_metadata m) mission_succeeded
                            (m_created_at m) (Some now))
       (ops_missions t))).

Definition complete_step (step_id : uuid) (result_data : option pyval)
    (error : option string) : M bool :=
  let status := if str_truthy error then failed else succeeded in
  let result_json := if opt_truthy result_data then result_data else None in
  now <- sql_now ;;
  db_result <- update_steps_returning
    (fun s => N.eqb (s_id s) step_id && step_status_eqb (s_status s) running)
    (completed status result_json error now) s_mission_id ;;
  if Nat.eqb (List.length db_result) 0 then ret false
  else
    match db_result with
    | [] => raise TypeError
    | mission_id :: _ =>
        pending <- count_pending mission_id ;;
        (if Nat.eqb pending 0 then mark_mission_succeeded mission_id else ret tt) ;;
        ret true
    end.

(** ** [evaluate_triggers] *)

(** [tr.last_fired_at IS NULL
     OR tr.last_fired_at < NOW() - INTERVAL '1 minute' * tr.cooldown_minutes]. *)
Definition off_cooldown (now : timestamp) (tr : trigger_row) : bool :=
  match tr_last_fired_at tr with
  | None => true
  | Some fired => (fired <? now - minute * tr_cooldown_minutes tr)%Z
  end.

(** [SELECT tr.* FROM ops_trigger_rules tr WHERE tr.enabled = true
     AND (...) AND tr.trigger_event = %s].  A [None] parameter is [NULL]
     and equals no row; a parameter that is neither [None] nor a [str]
     has no equality with a text column and the statement is refused. *)
Definition select_triggers (event_type : option pyval) : M (list trigger_row) :=
  now <- sql_now ;;
  match event_type with
  | None | Some PNone => ret []
  | Some (PStr ty) =>
      sql_query (fun t =>
        filter (fun tr => tr_enabled tr && off_cooldown now tr
                          && String.eqb (tr_trigger_event tr) ty)
               (ops_trigger_rules t))
  | Some _ => raise DataError
  end.

(** The loop that fills [matching_triggers]. *)
Fixpoint matching (event_data : dict) (triggers : list trigger_row)
    : result (list trigger_row) :=
  match triggers with
  | [] => Ok []
  | trigger :: rest =>
      let conditions := tr_conditions trigger in
      let? matched := _check_conditions event_data conditions in
      let? matching_triggers := matching event_data rest in
      Ok (if matched then trigger :: matching_triggers else matching_triggers)
  end.

Definition evaluate_triggers (event_data : dict) : M (list trigger_row) :=
  triggers <- select_triggers (dict_get event_data "event_type") ;;
  lift (matching event_data triggers).

End DatabaseUtils.

Import DatabaseUtils.

(* ===================================================================== *)
(** * Induction over Python values *)
(* ===================================================================== *)

(** Structural induction through the list and dict constructors. *)
Section PyvalInduction.
Variable P : pyval -> Prop.
Hypothesis HNone : P PNone.
Hypothesis HBool : forall b, P (PBool b).
Hypothesis HNum : forall q, P (PNum q).
Hypothesis HStr : forall s, P (PStr s).
Hypothesis HList : forall l, Forall P l -> P (PList l).
Hypothesis HDict : forall d, Forall (fun kv => P (snd kv)) d -> P (PDict d).

Fixpoint pyval_nested_ind (v : pyval) : P v :=
  match v with
  | PNone => HNone
  | PBool b => HBool b
  | PNum q => HNum q
  | PStr s => HStr s
  | PList l =>
      HList l ((fix all (xs : list pyval) : Forall P xs :=
                  match xs with
                  | [] => Forall_nil P
                  | x :: xs' => Forall_cons x (pyval_nested_ind x) (all xs')
                  end) l)
  | PDict d =>
      HDict d ((fix all (kvs : list (string * pyval))
                  : Forall (fun kv => P (snd kv)) kvs :=
                  match kvs with
                  | [] => Forall_nil _
                  | kv :: kvs' =>
                      Forall_cons kv (pyval_nested_ind (snd kv)) (all kvs')
                  end) d)
  end.
End PyvalInduction.

(* ===================================================================== *)
(** * The condition checker: what the spec asks of it *)
(* ===================================================================== *)

(** What one operator of a sub-mapping asks of the event value, in the
    comparisons the code evaluates: [$gt] is refused when
    [event value <= value], [$lt] when [event value >= value], [$eq] when
    the two differ; any other operator name asks nothing.  An operator
    holds when its comparison is evaluated and does not refuse it. *)
Definition operator_holds (ev : pyval) (op : string) (value : pyval) : Prop :=
  (op = "$gt" -> py_le ev value = Ok false) /\
  (op = "$lt" -> py_ge ev value = Ok false) /\
  (op = "$eq" -> py_eq ev value = true).

Definition operator_fails (ev : pyval) (op : string) (value : pyval) : Prop :=
  (op = "$gt" /\ py_le ev value = Ok true) \/
  (op = "$lt" /\ py_ge ev value = Ok true) \/
  (op = "$eq" /\ py_eq ev value = false).

(** The operator asks for an ordering Python does not define. *)
Definition operator_raises (ev : pyval) (op : string) (value : pyval) : Prop :=
  (op = "$gt" /\ py_le ev value = Raise TypeError) \/
  (op = "$lt" /\ py_ge ev value = Raise TypeError).

Definition operators_hold (ev : pyval) (ops : dict) : Prop :=
  forall op value, In (op, value) ops -> operator_holds ev op value.

(** Walking the sub-mapping in order, the first operator that does not
    hold is one that [P]. *)
Definition first_operator (P : pyval -> string -> pyval -> Prop)
    (ev : pyval) (ops : dict) : Prop :=
  exists ops1 op value ops2,
    ops = ops1 ++ (op, value) :: ops2 /\ operators_hold ev ops1 /\ P ev op value.

(** A condition on an event value: every operator of a sub-mapping, or
    equality with a plain literal. *)
Definition condition_holds (ev : pyval) (condition : pyval) : Prop :=
  match condition with
  | PDict ops => operators_hold ev ops
  | literal => py_eq ev literal = true
  end.

Definition condition_fails (ev : pyval) (condition : pyval) : Prop :=
  match condition with
  | PDict ops => first_operator operator_fails ev ops
  | literal => py_eq ev literal = false
  end.

Definition condition_raises (ev : pyval) (condition : pyval) : Prop :=
  match condition with
  | PDict ops => first_operator operator_raises ev ops
  | _ => False
  end.

(** All conditions on keys the event has hold. *)
Definition all_hold (event_data items : dict) : Prop :=
  forall key condition ev,
    In (key, condition) items -> dict_get event_data key = Some ev ->
    condition_holds ev condition.

(** Walking the tree in order, the first condition that does not hold on
    a key the event has is one that [P]. *)
Definition first_condition (P : pyval -> pyval -> Prop)
    (event_data items : dict) : Prop :=
  exists before key condition ev after,
    items = before ++ (key, condition) :: after /\
    all_hold event_data before /\
    dict_get event_data key = Some ev /\ P ev condition.

(** What is met first, in evaluation order, is a failing operator or
    literal. *)
Definition fails_first (event_data items : dict) : Prop :=
  first_condition condition_fails event_data items.

(** What is met first, in evaluation order, is an ordering Python does
    not define. *)
Definition raises_first (event_data items : dict) : Prop :=
  first_condition condition_raises event_data items.


(* ===================================================================== *)
(** * The step ledger: vocabulary of the statements *)
(* ===================================================================== *)

(** The selection a claim or a completion makes. *)
Definition is_queued (step_id : uuid) (s : step_row) : bool :=
  N.eqb (s_id s) step_id && step_status_eqb (s_status s) queued.
Definition is_running (step_id : uuid) (s : step_row) : bool :=
  N.eqb (s_id s) step_id && step_status_eqb (s_status s) running.

Definition steps_of (c : conn) : list step_row := ops_mission_steps (visible c).
Definition missions_of (c : conn) : list mission_row := ops_missions (visible c).

Definition status_of_error (error : option string) : step_status :=
  if str_truthy error then failed else succeeded.
Definition json_of_result (result_data : option pyval) : option pyval :=
  if opt_truthy result_data then result_data else None.

(** The connection after the first [UPDATE] of [complete_step]. *)
Definition after_completion (step_id : uuid) (result_data : option pyval)
    (error : option string) (c : conn) : conn :=
  put_visible (set_steps (visible c)
    (update_where (is_running step_id)
       (completed (status_of_error error) (json_of_result result_data) error (clock c))
       (steps_of c))) c.

(** What a completion must leave in the row: the status by the error, the
    result recorded, the error text and the completion time; nothing else
    moves. *)
Definition status_for (error : option string) : step_status :=
  match error with
  | Some (String _ _) => failed
  | _ => succeeded
  end.

(** The result recorded: the payload given, or null when none is given
    or the one given is empty (an empty mapping, as any value Python
    counts as false). *)
Definition recorded_result (result_data : option pyval) : option pyval :=
  match result_data with
  | Some payload => if py_truthy payload then Some payload else None
  | None => None
  end.

Definition completes_to (result_data : option pyval) (error : option string)
    (now : timestamp) (s s' : step_row) : Prop :=
  s_id s' = s_id s /\ s_mission_id s' = s_mission_id s /\
  s_kind s' = s_kind s /\ s_payload s' = s_payload s /\
  s_assigned_to s' = s_assigned_to s /\ s_timeout_at s' = s_timeout_at s /\
  s_created_at s' = s_created_at s /\ s_started_at s' = s_started_at s /\
  s_status s' = status_for error /\
  s_result s' = recorded_result result_data /\
  s_error s' = error /\
  s_completed_at s' = Some now.

(** What a claim must leave in the row: running, the assignee and the
    start time; nothing else moves. *)
Definition claims_to (assigned_to : string) (now : timestamp) (s s' : step_row) : Prop :=
  s_id s' = s_id s /\ s_mission_id s' = s_mission_id s /\
  s_kind s' = s_kind s /\ s_payload s' = s_payload s /\
  s_timeout_at s' = s_timeout_at s /\ s_result s' = s_result s /\
  s_error s' = s_error s /\ s_created_at s' = s_created_at s /\
  s_completed_at s' = s_completed_at s /\
  s_status s' = running /\
  s_assigned_to s' = PStr assigned_to /\
  s_started_at s' = Some now.

(** ** Sessions

    A caller issues one call at a time, each at some reading of the
    database clock.  Concurrent callers are interleavings of such calls:
    every statement above is a single atomic [UPDATE], [SELECT] or
    transaction. *)
Inductive call : Type :=
| Compile (proposal_id : uuid) (created_by : string)
| ListClaimable (kind : option string) (limit : Z)
| Claim (step_id : uuid) (assigned_to : string)
| Complete (step_id : uuid) (result_data : option pyval) (error : option string)
| Evaluate (event_data : dict).

Definition at_time (now : timestamp) (c : conn) : conn :=
  mk_conn (committed c) (txn c) (next_uuid c) now (step_ttl c).

Definition run_call (now : timestamp) (k : call) (c : conn) : conn :=
  let c := at_time now c in
  match k with
  | Compile proposal_id created_by => fst (create_mission_from_proposal proposal_id created_by c)
  | ListClaimable kind limit => fst (get_queued_steps kind limit c)
  | Claim step_id assigned_to => fst (claim_step step_id assigned_to c)
  | Complete step_id result_data error => fst (complete_step step_id result_data error c)
  | Evaluate event_data => fst (evaluate_triggers event_data c)
  end.

Fixpoint run_calls (calls : list (timestamp * call)) (c : conn) : conn :=
  match calls with
  | [] => c
  | (now, k) :: rest => run_calls rest (run_call now k c)
  end.

(** Keys handed out so far are below the counter. *)
Definition keys_issued (c : conn) : Prop :=
  forall s, In s (steps_of c) -> (s_id s < next_uuid c)%N.

(* ===================================================================== *)
(** * The compiler: vocabulary of the statements *)
(* ===================================================================== *)

(** The [for step in steps] loop replayed without the connection: the
    rows it inserts before it finishes or raises, the key counter it
    leaves, and how it ends. *)
Fixpoint built_steps (mission_id next : uuid) (now : timestamp) (ttl : option Z)
    (templates : list pyval) : list step_row * uuid * result unit :=
  match templates with
  | [] => ([], next, Ok tt)
  | PDict d :: rest =>
      let '(rows, next', r) := built_steps mission_id (N.succ next) now ttl rest in
      (new_step next mission_id
                (dict_get_default d "kind" (PStr "analyze"))
                (dict_get_default d "payload" (PDict []))
                (dict_get_default d "assigned_to" PNone) now ttl :: rows,
       next', r)
  | _ :: _ => ([], next, Raise AttributeError)
  end.

Definition accepted_with_id (proposal_id : uuid) (p : proposal_row) : bool :=
  N.eqb (p_id p) proposal_id && proposal_status_eqb (p_status p) accepted.

Definition mission_for (c : conn) (proposal_id : uuid) (created_by : string)
    (p : proposal_row) : mission_row :=
  mk_mission (next_uuid c) (p_title p) created_by "entry" (Some proposal_id)
    (PDict [("source_proposal", PStr (uuid_str proposal_id));
            ("original_agent", PStr (p_agent_id p));
            ("signal_type", PStr (p_signal_type p))])
    mission_running (clock c) None.

Definition reaccepted (now : timestamp) (p : proposal_row) : proposal_row :=
  mk_proposal (p_id p) (p_agent_id p) (p_title p) (p_signal_type p)
              (p_proposed_steps p) accepted (Some now).

(** The tables a successful compilation commits. *)
Definition compiled_tables (c : conn) (proposal_id : uuid) (created_by : string)
    (p : proposal_row) (rows : list step_row) : tables :=
  mk_tables
    (update_where (fun q => N.eqb (p_id q) proposal_id) (reaccepted (clock c))
                  (ops_trading_proposals (visible c)))
    (ops_missions (visible c) ++ [mission_for c proposal_id created_by p])
    (ops_mission_steps (visible c) ++ rows)
    (ops_trigger_rules (visible c)).

(** The connection after a [ROLLBACK], with the key counter at [next]. *)
Definition rolled_back (c : conn) (next : uuid) : conn :=
  mk_conn (committed c) None next (clock c) (step_ttl c).

(** Consecutive keys, as the counter hands them out. *)
Fixpoint keys_from (first : uuid) (n : nat) : list uuid :=
  match n with
  | O => []
  | S n' => first :: keys_from (N.succ first) n'
  end.

(** A step made from a template, in the compiler's words: the template's
    kind (default "analyze"), payload (default empty) and assignee
    (default none), queued, owned by the new mission. *)
Definition step_from_template (mission_id : uuid) (now : timestamp)
    (template : dict) (s : step_row) : Prop :=
  s_mission_id s = mission_id /\
  s_kind s = dict_get_default template "kind" (PStr "analyze") /\
  s_payload s = dict_get_default template "payload" (PDict []) /\
  s_assigned_to s = dict_get_default template "assigned_to" PNone /\
  s_status s = queued /\
  s_created_at s = now.

(** No row of the given id is waiting to be claimed. *)
Definition never_queued (step_id : uuid) (c : conn) : Prop :=
  forall s, In s (steps_of c) -> is_queued step_id s = false.

(** The rows [get_queued_steps] selects: queued, deadline ahead, and of
    the asked kind when the kind is a non-empty string. *)
Definition claimable (now : timestamp) (kind : option string) (s : step_row) : bool :=
  step_status_eqb (s_status s) queued && deadline_ahead now s &&
  match kind with
  | Some (String _ _ as k) => text_eq (s_kind s) k
  | _ => true
  end.

(** Ascending order on a sort key. *)
Definition ascending_by {R} (key : R -> Z) (a b : R) : Prop := (key a <= key b)%Z.

(** Creation-time order of the rows [get_queued_steps] returns. *)
Definition oldest_first : queued_row -> queued_row -> Prop :=
  ascending_by (fun q => s_created_at (q_step q)).

(* ===================================================================== *)
(** * The trigger registry: vocabulary of the statements *)
(* ===================================================================== *)

(** The [WHERE] clause of [evaluate_triggers] for an event of kind [ty]. *)
Definition candidate (now : timestamp) (ty : string) (tr : trigger_row) : bool :=
  tr_enabled tr && off_cooldown now tr && String.eqb (tr_trigger_event tr) ty.

(** The condition tree of the rule matches the event. *)
Definition passes (event_data : dict) (tr : trigger_row) : bool :=
  match _check_conditions event_data (tr_conditions tr) with
  | Ok true => true
  | _ => false
  end.

(** The cooldown window has elapsed: never fired, or fired before
    now minus the cooldown. *)
Definition cooldown_elapsed (now : timestamp) (tr : trigger_row) : Prop :=
  tr_last_fired_at tr = None \/
  exists fired, tr_last_fired_at tr = Some fired /\
                (fired < now - minute * tr_cooldown_minutes tr)%Z.

(** The four requirements on a rule for an event of kind [ty]. *)
Definition fires (event_data : dict) (now : timestamp) (ty : string)
    (tr : trigger_row) : Prop :=
  tr_enabled tr = true /\
  tr_trigger_event tr = ty /\
  cooldown_elapsed now tr /\
  _check_conditions event_data (tr_conditions tr) = Ok true.

(* ===================================================================== *)
(** * Further vocabulary: the condition checker *)
(* ===================================================================== *)

(** The three operator names the checker knows. *)
Definition known_operator (op : string) : Prop :=
  op = "$gt" \/ op = "$lt" \/ op = "$eq".

(** A condition value the checker treats as a plain literal. *)
Definition plain_literal (v : pyval) : Prop :=
  match v with
  | PDict _ => False
  | _ => True
  end.

(* ===================================================================== *)
(** * Further vocabulary: what a session can do to the tables *)
(* ===================================================================== *)

(** The row [mark_mission_succeeded] writes. *)
Definition marked (now : timestamp) (m : mission_row) : mission_row :=
  mk_mission (m_id m) (m_title m) (m_created_by m) (m_mission_type m)
             (m_proposal_id m) (m_metadata m) mission_succeeded
             (m_created_at m) (Some now).

(** The tables one call, issued at [now] outside a transaction, can leave
    behind: nothing changed; a claim; a completion, with or without the
    mission being marked; a committed compilation. *)
Inductive effect (now : timestamp) (c : conn) : tables -> Prop :=
| effect_none :
    effect now c (visible c)
| effect_claim (step_id : uuid) (assigned_to : string) :
    effect now c
      (set_steps (visible c)
         (update_where (is_queued step_id) (claimed assigned_to now) (steps_of c)))
| effect_complete (step_id : uuid) (result_data : option pyval) (error : option string) :
    effect now c
      (set_steps (visible c)
         (update_where (is_running step_id)
            (completed (status_of_error error) (json_of_result result_data) error now)
            (steps_of c)))
| effect_complete_last (step_id : uuid) (result_data : option pyval)
    (error : option string) (s : step_row) :
    In s (steps_of c) -> is_running step_id s = true ->
    let steps' :=
      update_where (is_running step_id)
        (completed (status_of_error error) (json_of_result result_data) error now)
        (steps_of c) in
    filter (is_pending (s_mission_id s)) steps' = [] ->
    effect now c
      (set_missions (set_steps (visible c) steps')
         (update_where (fun m => N.eqb (m_id m) (s_mission_id s)) (marked now)
            (ops_missions (visible c))))
| effect_compile (proposal_id : uuid) (created_by : string) (p : proposal_row)
    (rows : list step_row) :
    find (accepted_with_id proposal_id) (ops_trading_proposals (visible c)) = Some p ->
    (forall s, In s rows ->
       (next_uuid c < s_id s)%N /\ s_mission_id s = next_uuid c /\ s_status s = queued) ->
    effect now c (compiled_tables (at_time now c) proposal_id created_by p rows).

(** A table grows: its old rows are still there, in place, each evolved
    as [evolves] allows, and new rows may follow them. *)
Definition grows {R} (evolves : R -> R -> Prop) (before after : list R) : Prop :=
  exists kept added, after = kept ++ added /\ Forall2 evolves before kept.

(** How a step row may differ after a session: the work it describes is
    fixed; a queued step may be anything later; a running step is never
    queued again and keeps its assignee and start time; a finished step
    is final. *)
Definition step_evolves (s s' : step_row) : Prop :=
  s_id s' = s_id s /\ s_mission_id s' = s_mission_id s /\
  s_kind s' = s_kind s /\ s_payload s' = s_payload s /\
  s_timeout_at s' = s_timeout_at s /\ s_created_at s' = s_created_at s /\
  match s_status s with
  | queued => True
  | running => s_status s' <> queued /\ s_assigned_to s' = s_assigned_to s /\
               s_started_at s' = s_started_at s
  | succeeded | failed => s' = s
  end.

(** How a mission row may differ after a session: not at all, or marked
    succeeded with a completion time. *)
Definition mission_evolves (m m' : mission_row) : Prop :=
  m' = m \/ exists now, m' = marked now m.

(** How a proposal row may differ after a session: not at all, or, for
    an accepted one, in its acceptance time. *)
Definition proposal_evolves (p p' : proposal_row) : Prop :=
  p' = p \/ (p_status p = accepted /\ exists now, p' = reaccepted now p).

(** A small store used to exercise sessions: one accepted proposal with
    two templates, one mission with a queued and a running step, and two
    trigger rules, one of them cooling down. *)
Definition demo_proposal : proposal_row :=
  mk_proposal 1%N "intel" "BTC accumulation signal" "KOL_accumulation"
    (PList [PDict [("kind", PStr "analyze"); ("assigned_to", PStr "sage")];
            PDict [("kind", PStr "execute_trade"); ("assigned_to", PStr "scout")]])
    accepted None.

Definition demo_mission : mission_row :=
  mk_mission 2%N "earlier mission" "ops" "entry" None (PDict []) mission_running
             50%Z None.

Definition demo_queued_step : step_row :=
  mk_step 3%N 2%N (PStr "analyze") (PDict []) PNone queued
          (Some 900%Z) None None 60%Z None None.

Definition demo_running_step : step_row :=
  mk_step 4%N 2%N (PStr "execute_trade") (PDict []) (PStr "scout") running
          (Some 900%Z) None None 61%Z (Some 70%Z) None.

Definition demo_rule : trigger_row :=
  mk_trigger 5%N true "tick" (PDict [("price", PDict [("$gt", PNum 50)])]) 5%Z None.

Definition demo_conn : conn :=
  mk_conn (mk_tables [demo_proposal] [demo_mission]
                     [demo_queued_step; demo_running_step] [demo_rule])
          None 6%N 100%Z (Some 600%Z).

Definition demo_calls : list (timestamp * call) :=
  [(110%Z, ListClaimable None 5%Z);
   (120%Z, Claim 3%N "sage");
   (130%Z, Complete 4%N None (Some "order rejected"));
   (140%Z, Compile 1%N "ops");
   (150%Z, Complete 3%N (Some (PDict [("signal", PStr "buy")])) None);
   (160%Z, Evaluate [("event_type", PStr "tick"); ("price", PNum 100)])].

(** The selection of the compiler's [UPDATE]: the proposals of one id. *)
Definition has_id (proposal_id : uuid) (p : proposal_row) : bool :=
  N.eqb (p_id p) proposal_id.

(** Every step of the mission has succeeded or failed. *)
Definition all_finished (mission_id : uuid) (steps : list step_row) : Prop :=
  forall s, In s steps -> s_mission_id s = mission_id ->
            s_status s = succeeded \/ s_status s = failed.

(* ===================================================================== *)
(** * Events, action runs and trade outcomes *)
(* ===================================================================== *)

(** The helpers below write three more tables through the same [db]
    handle.  None of them opens or closes a transaction, so the tables
    are kept as this session sees them.  Prices and PnL figures are only
    stored, never computed with; they are held as the Python values
    passed. *)

Record outcome_row := mk_outcome {
  o_id : uuid;
  o_trade_id : uuid;
  o_entry_price : pyval;
  o_exit_price : pyval;
  o_pnl : pyval;
  o_pnl_percent : pyval;
  o_hold_time_seconds : option Z;
  o_outcome_type : string;
  o_lessons_learned : list string
}.

(** [e_created_at] is [None] for SQL [NULL]. *)
Record event_row := mk_event {
  e_id : uuid;
  e_agent_id : string;
  e_kind : string;
  e_title : string;
  e_summary : string;
  e_tags : list string;
  e_trade_id : option uuid;
  e_pnl : pyval;
  e_pnl_percent : pyval;
  e_metadata : pyval;
  e_created_at : option timestamp
}.

(** The columns of [ops_action_runs] that [cleanup_stale_data] reads. *)
Record action_run_row := mk_action_run {
  a_id : uuid;
  a_status : string;
  a_created_at : option timestamp
}.

(** [events_stamped] is the schema's choice for [ops_agent_events.created_at],
    which the [INSERT] leaves to its default: [true] for a default of
    [NOW()], [false] for no default ([NULL]).  The schema is not part of
    the source. *)
Record ledger := mk_ledger {
  session : conn;
  ops_trade_outcomes : list outcome_row;
  ops_agent_events : list event_row;
  ops_action_runs : list action_run_row;
  events_stamped : bool
}.

(** [xs or []] for an optional list argument. *)
Definition list_or_empty {A} (xs : option (list A)) : list A :=
  match xs with
  | Some l => l
  | None => []
  end.

(** [d or {}] for an optional mapping argument. *)
Definition dict_or_empty (d : option pyval) : pyval :=
  if opt_truthy d then match d with Some v => v | None => PDict [] end
  else PDict [].

(** The session with one more key handed out. *)
Definition key_taken (c : conn) : conn := fst (gen_uuid c).

(** ** [record_agent_event]

    [INSERT INTO ops_agent_events (agent_id, kind, title, summary, tags,
     trade_id, pnl, pnl_percent, metadata)
     VALUES (%s, %s, %s, %s, %s, %s, %s, %s, %s::jsonb) RETURNING id]
    with [tags or []] and [json.dumps(metadata or {})]. *)
Definition record_agent_event (agent_id kind title summary : string)
    (tags : option (list string)) (trade_id : option uuid)
    (pnl pnl_percent : pyval) (metadata : option pyval) (d : ledger)
    : ledger * uuid :=
  let id := next_uuid (session d) in
  let created := if events_stamped d then Some (clock (session d)) else None in
  let row := mk_event id agent_id kind title summary (list_or_empty tags) trade_id
                      pnl pnl_percent (dict_or_empty metadata) created in
  (mk_ledger (key_taken (session d)) (ops_trade_outcomes d)
             (ops_agent_events d ++ [row]) (ops_action_runs d) (events_stamped d),
   id).

(** ** [record_trade_outcome] *)

Definition for_trade (trade_id : uuid) (r : outcome_row) : bool :=
  N.eqb (o_trade_id r) trade_id.

(** [ON CONFLICT (trade_id) DO UPDATE SET exit_price = EXCLUDED.exit_price,
     pnl = ..., pnl_percent = ..., hold_time_seconds = ...,
     outcome_type = ..., lessons_learned = ...]: the id, the trade and the
    entry price of the existing row stay. *)
Definition overwritten (exit_price pnl pnl_percent : pyval)
    (hold_time_seconds : option Z) (outcome_type : string)
    (lessons_learned : list string) (r : outcome_row) : outcome_row :=
  mk_outcome (o_id r) (o_trade_id r) (o_entry_price r) exit_price pnl pnl_percent
             hold_time_seconds outcome_type lessons_learned.

(** [INSERT INTO ops_trade_outcomes (...) VALUES (...)
     ON CONFLICT (trade_id) DO UPDATE SET ... RETURNING id], with
    [lessons_learned or []]; [fetchone()[0]] is the id of the row
    inserted or rewritten. *)
Definition record_trade_outcome (trade_id : uuid)
    (entry_price exit_price pnl pnl_percent : pyval)
    (hold_time_seconds : option Z) (outcome_type : string)
    (lessons_learned : option (list string)) (d : ledger) : ledger * uuid :=
  let lessons := list_or_empty lessons_learned in
  match find (for_trade trade_id) (ops_trade_outcomes d) with
  | Some existing =>
      (mk_ledger (session d)
         (update_where (for_trade trade_id)
            (overwritten exit_price pnl pnl_percent hold_time_seconds outcome_type
                         lessons)
            (ops_trade_outcomes d))
         (ops_agent_events d) (ops_action_runs d) (events_stamped d),
       o_id existing)
  | None =>
      let id := next_uuid (session d) in
      (mk_ledger (key_taken (session d))
         (ops_trade_outcomes d ++
            [mk_outcome id trade_id entry_price exit_price pnl pnl_percent
                        hold_time_seconds outcome_type lessons])
         (ops_agent_events d) (ops_action_runs d) (events_stamped d),
       id)
  end.

(** ** [cleanup_stale_data] *)

(** A [datetime] is its distance in microseconds from [datetime.min]
    (year 1); [datetime.max] is the last microsecond of year 9999. *)
Definition day : Z := 86400000000.
Definition datetime_max : Z := 3652059 * day - 1.
Definition timedelta_max_days : Z := 999999999.

Inductive cleanup_result := Cleaned | OverflowError.

(** [datetime.now() - timedelta(days=days_to_keep)]: [timedelta] refuses
    more than 999999999 days either way, and the difference must be a
    [datetime]. *)
Definition cutoff_date (today : timestamp) (days_to_keep : Z) : option timestamp :=
  if (Z.abs days_to_keep >? timedelta_max_days)%Z then None
  else
    let cutoff := (today - days_to_keep * day)%Z in
    if (cutoff <? 0)%Z || (datetime_max <? cutoff)%Z then None else Some cutoff.

(** [created_at < %s]; unknown, hence not true, for a [NULL]. *)
Definition older_than (cutoff : timestamp) (created : option timestamp) : bool :=
  match created with
  | Some t => (t <? cutoff)%Z
  | None => false
  end.

Definition protected_tags : list string := ["big_win"; "big_loss"; "system_alert"].

(** [tags && ARRAY['big_win', 'big_loss', 'system_alert']]. *)
Definition is_protected (e : event_row) : bool :=
  existsb (fun tag => existsb (String.eqb tag) protected_tags) (e_tags e).

(** [DELETE FROM ops_agent_events WHERE created_at < %s AND NOT (tags && ...)]. *)
Definition stale_event (cutoff : timestamp) (e : event_row) : bool :=
  older_than cutoff (e_created_at e) && negb (is_protected e).

(** [DELETE FROM ops_action_runs WHERE created_at < %s AND status = 'success']. *)
Definition stale_run (cutoff : timestamp) (a : action_run_row) : bool :=
  older_than cutoff (a_created_at a) && String.eqb (a_status a) "success".

(** [today] is what [datetime.now()] reads on the client's clock. *)
Definition cleanup_stale_data (today : timestamp) (days_to_keep : Z) (d : ledger)
    : ledger * cleanup_result :=
  match cutoff_date today days_to_keep with
  | None => (d, OverflowError)
  | Some cutoff =>
      (mk_ledger (session d) (ops_trade_outcomes d)
         (filter (fun e => negb (stale_event cutoff e)) (ops_agent_events d))
         (filter (fun a => negb (stale_run cutoff a)) (ops_action_runs d))
         (events_stamped d),
       Cleaned)
  end.

(** ** Sessions over these tables *)

Inductive ledger_call : Type :=
| RecordEvent (agent_id kind title summary : string) (tags : option (list string))
    (trade_id : option uuid) (pnl pnl_percent : pyval) (metadata : option pyval)
| RecordOutcome (trade_id : uuid) (entry_price exit_price pnl pnl_percent : pyval)
    (hold_time_seconds : option Z) (outcome_type : string)
    (lessons_learned : option (list string))
| Cleanup (today : timestamp) (days_to_keep : Z).

Definition ledger_at (now : timestamp) (d : ledger) : ledger :=
  mk_ledger (at_time now (session d)) (ops_trade_outcomes d) (ops_agent_events d)
            (ops_action_runs d) (events_stamped d).

(** One call, issued when the database clock reads [now]. *)
Definition run_ledger_call (now : timestamp) (k : ledger_call) (d : ledger) : ledger :=
  let d := ledger_at now d in
  match k with
  | RecordEvent agent_id kind title summary tags trade_id pnl pnl_percent metadata =>
      fst (record_agent_event agent_id kind title summary tags trade_id pnl
             pnl_percent metadata d)
  | RecordOutcome trade_id entry_price exit_price pnl pnl_percent hold outcome lessons =>
      fst (record_trade_outcome trade_id entry_price exit_price pnl pnl_percent hold
             outcome lessons d)
  | Cleanup today days_to_keep => fst (cleanup_stale_data today days_to_keep d)
  end.

Fixpoint run_ledger_calls (calls : list (timestamp * ledger_call)) (d : ledger)
    : ledger :=
  match calls with
  | [] => d
  | (now, k) :: rest => run_ledger_calls rest (run_ledger_call now k d)
  end.

(** No two outcome rows are for the same trade (the unique index that
    [ON CONFLICT (trade_id)] relies on). *)
Definition one_row_per_trade (d : ledger) : Prop :=
  NoDup (map o_trade_id (ops_trade_outcomes d)).

(* ===================================================================== *)
(** * Facts about Python values *)
(* ===================================================================== *)

(** The only exception an ordering operator raises. *)
Lemma py_order_raises (acc : comparison -> bool) :
  forall a b e, py_order acc a b = Raise e -> e = TypeError.
Proof.
  intros a.
  induction a as [ | x | q | s | l IH | d _ ] using pyval_nested_ind;
    intros b e; destruct b as [ | y | r | t | l2 | d2 ];
    try (destruct x); try (destruct y); simpl; try congruence.
  revert l2. induction IH as [ | x xs Hx _ IHxs ]; intros l2.
  - destruct l2; simpl; congruence.
  - destruct l2 as [ | y ys ]; simpl; [ congruence | ].
    destruct (py_eq x y); [ apply IHxs | apply Hx ].
Qed.

(** A function with three kinds of outcome, each implying one of three
    pairwise exclusive facts, has each outcome exactly when its fact
    holds. *)
Lemma outcome_iff (r : result bool) (T F R : Prop) :
  match r with
  | Ok true => T
  | Ok false => F
  | Raise e => e = TypeError /\ R
  end ->
  (T -> F -> False) -> (T -> R -> False) -> (F -> R -> False) ->
  (r = Ok true <-> T) /\ (r = Ok false <-> F) /\
  (forall e, r = Raise e <-> e = TypeError /\ R).
Proof.
  intros H HTF HTR HFR.
  destruct r as [ [ | ] | e0 ].
  - split; [ tauto | ]. split.
    + split; [ discriminate | intros Hf; exfalso; auto ].
    + intros e. split; [ discriminate | intros (_ & Hr); exfalso; auto ].
  - split; [ | split; [ tauto | ] ].
    + split; [ discriminate | intros Ht; exfalso; auto ].
    + intros e. split; [ discriminate | intros (_ & Hr); exfalso; auto ].
  - destruct H as (-> & Hr). split; [ | split ].
    + split; [ discriminate | intros Ht; exfalso; auto ].
    + split; [ discriminate | intros Hf; exfalso; auto ].
    + intros e. split.
      * intros He. inversion He. auto.
      * intros (-> & _). reflexivity.
Qed.

(** Two ways of cutting a list at an element: the same cut, or one
    element lies before the other. *)
Lemma cut_twice {A} (a1 b1 a2 b2 : list A) (x y : A) :
  a1 ++ x :: a2 = b1 ++ y :: b2 ->
  (a1 = b1 /\ x = y /\ a2 = b2) \/ In x b1 \/ In y a1.
Proof.
  revert b1. induction a1 as [ | a a1 IH ]; intros [ | b b1 ] H; simpl in H;
    inversion H; subst.
  - left. auto.
  - right. left. now left.
  - right. right. now left.
  - destruct (IH b1 H2) as [ (-> & -> & ->) | [ Hx | Hy ] ].
    + left. auto.
    + right. left. now right.
    + right. right. now right.
Qed.

(* ===================================================================== *)
(** * The condition checker, loop by loop *)
(* ===================================================================== *)

(** One operator, by outcome. *)
Lemma op_rejects_cases (ev : pyval) (op : string) (value : pyval) :
  match op_rejects ev op value with
  | Ok false => operator_holds ev op value
  | Ok true => operator_fails ev op value
  | Raise e => e = TypeError /\ operator_raises ev op value
  end.
Proof.
  unfold op_rejects, operator_holds, operator_fails, operator_raises.
  destruct (String.eqb_spec op "$gt") as [-> | Hgt]; simpl.
  - destruct (py_le ev value) as [ [ | ] | e ] eqn:Hle; simpl.
    + left. now split.
    + repeat split; congruence.
    + pose proof (py_order_raises _ _ _ _ Hle). subst e. auto.
  - destruct (String.eqb_spec op "$lt") as [-> | Hlt]; simpl.
    + destruct (py_ge ev value) as [ [ | ] | e ] eqn:Hge; simpl.
      * right. left. now split.
      * repeat split; congruence.
      * pose proof (py_order_raises _ _ _ _ Hge). subst e. auto.
    + destruct (String.eqb_spec op "$eq") as [-> | Heq]; simpl.
      * unfold py_ne. destruct (py_eq ev value); simpl.
        -- repeat split; congruence.
        -- right. right. now split.
      * repeat split; congruence.
Qed.

Lemma holds_not_fails (ev : pyval) (op : string) (value : pyval) :
  operator_holds ev op value -> operator_fails ev op value -> False.
Proof.
  intros (Hg & Hl & He) [ (-> & H) | [ (-> & H) | (-> & H) ] ].
  - rewrite Hg in H by reflexivity. discriminate.
  - rewrite Hl in H by reflexivity. discriminate.
  - rewrite He in H by reflexivity. discriminate.
Qed.

Lemma holds_not_raises (ev : pyval) (op : string) (value : pyval) :
  operator_holds ev op value -> operator_raises ev op value -> False.
Proof.
  intros (Hg & Hl & _) [ (-> & H) | (-> & H) ].
  - rewrite Hg in H by reflexivity. discriminate.
  - rewrite Hl in H by reflexivity. discriminate.
Qed.

Lemma fails_not_raises (ev : pyval) (op : string) (value : pyval) :
  operator_fails ev op value -> operator_raises ev op value -> False.
Proof.
  intros [ (-> & H) | [ (-> & H) | (-> & H) ] ] [ (Hop & H') | (Hop & H') ];
    try discriminate Hop; congruence.
Qed.

(** The inner loop, by outcome. *)
Lemma check_operators_cases (ev : pyval) (ops : dict) :
  match check_operators ev ops with
  | Ok true => operators_hold ev ops
  | Ok false => first_operator operator_fails ev ops
  | Raise e => e = TypeError /\ first_operator operator_raises ev ops
  end.
Proof.
  induction ops as [ | [op value] rest IH ]; simpl.
  - intros ? ? [].
  - pose proof (op_rejects_cases ev op value) as Hop.
    destruct (op_rejects ev op value) as [ [ | ] | e ]; simpl.
    + exists [], op, value, rest.
      split; [ reflexivity | ]. split; [ intros ? ? [] | exact Hop ].
    + assert (Hcons : forall ops1, operators_hold ev ops1 ->
                                   operators_hold ev ((op, value) :: ops1)).
      { intros ops1 H1 op' value' [Heq | Hin];
          [ inversion Heq; subst; exact Hop | now apply H1 ]. }
      destruct (check_operators ev rest) as [ [ | ] | e ].
      * now apply Hcons.
      * destruct IH as (ops1 & op' & value' & ops2 & -> & H1 & Hf).
        exists ((op, value) :: ops1), op', value', ops2. auto.
      * destruct IH as (-> & ops1 & op' & value' & ops2 & -> & H1 & Hr).
        split; [ reflexivity | ].
        exists ((op, value) :: ops1), op', value', ops2. auto.
    + destruct Hop as (-> & Hr). split; [ reflexivity | ].
      exists [], op, value, rest.
      split; [ reflexivity | ]. split; [ intros ? ? [] | exact Hr ].
Qed.

Lemma first_operator_in (P : pyval -> string -> pyval -> Prop)
    (ev : pyval) (ops : dict) :
  first_operator P ev ops ->
  exists op value, In (op, value) ops /\ P ev op value.
Proof.
  intros (ops1 & op & value & ops2 & -> & _ & Hp).
  exists op, value. split; [ apply in_or_app; right; now left | exact Hp ].
Qed.

Lemma condition_holds_not_fails (ev condition : pyval) :
  condition_holds ev condition -> condition_fails ev condition -> False.
Proof.
  destruct condition; simpl; try congruence.
  intros Hall Hf. apply first_operator_in in Hf.
  destruct Hf as (op & value & Hin & Hf). eapply holds_not_fails; eauto.
Qed.

Lemma condition_holds_not_raises (ev condition : pyval) :
  condition_holds ev condition -> condition_raises ev condition -> False.
Proof.
  destruct condition; simpl; try tauto.
  intros Hall Hr. apply first_operator_in in Hr.
  destruct Hr as (op & value & Hin & Hr). eapply holds_not_raises; eauto.
Qed.

Lemma condition_fails_not_raises (ev condition : pyval) :
  condition_fails ev condition -> condition_raises ev condition -> False.
Proof.
  destruct condition; simpl; try tauto.
  intros (a1 & op & value & a2 & -> & Ha & Hf) (b1 & op' & value' & b2 & Hcut & Hb & Hr).
  destruct (cut_twice _ _ _ _ _ _ Hcut) as [ (_ & Heq & _) | [ Hin | Hin ] ].
  - inversion Heq; subst. eapply fails_not_raises; eauto.
  - eapply holds_not_fails; [ apply (Hb _ _ Hin) | exact Hf ].
  - eapply holds_not_raises; [ apply (Ha _ _ Hin) | exact Hr ].
Qed.

(** The outer loop, by outcome. *)
Lemma check_items_cases (event_data items : dict) :
  match check_items event_data items with
  | Ok true => all_hold event_data items
  | Ok false => fails_first event_data items
  | Raise e => e = TypeError /\ raises_first event_data items
  end.
Proof.
  induction items as [ | [key condition] rest IH ]; simpl.
  - intros ? ? ? [].
  - assert (Hcons : forall before,
      (forall ev, dict_get event_data key = Some ev -> condition_holds ev condition) ->
      all_hold event_data before -> all_hold event_data ((key, condition) :: before)).
    { intros before Hhere Hb k c v [Heq | Hin] Hget.
      - inversion Heq; subst. auto.
      - eapply Hb; eauto. }
    assert (Hskip : forall r : result bool,
      r = check_items event_data rest ->
      (forall ev, dict_get event_data key = Some ev -> condition_holds ev condition) ->
      match r with
      | Ok true => all_hold event_data ((key, condition) :: rest)
      | Ok false => fails_first event_data ((key, condition) :: rest)
      | Raise e => e = TypeError /\ raises_first event_data ((key, condition) :: rest)
      end).
    { intros r -> Hhere.
      destruct (check_items event_data rest) as [ [ | ] | e ].
      - now apply Hcons.
      - destruct IH as (before & k & c & v & after & -> & Hb & Hget & Hf).
        exists ((key, condition) :: before), k, c, v, after. auto.
      - destruct IH as (-> & before & k & c & v & after & -> & Hb & Hget & Hr).
        split; [ reflexivity | ].
        exists ((key, condition) :: before), k, c, v, after. auto. }
    assert (Hhead : forall P : pyval -> pyval -> Prop, forall ev,
      dict_get event_data key = Some ev -> P ev condition ->
      first_condition P event_data ((key, condition) :: rest)).
    { intros P ev Hget Hp. exists [], key, condition, ev, rest.
      split; [ reflexivity | ]. split; [ intros ? ? ? [] | ].
      split; [ exact Hget | exact Hp ]. }
    destruct (dict_get event_data key) as [ev | ] eqn:Hget.
    + destruct condition as [ | b | q | s | l | ops ];
        try (destruct (py_ne ev _) eqn:Hne;
             [ apply (Hhead condition_fails ev eq_refl); simpl;
               unfold py_ne in Hne; now apply negb_true_iff in Hne
             | apply Hskip; [ reflexivity | ];
               intros ev' Hev'; inversion Hev'; subst; simpl;
               unfold py_ne in Hne; now apply negb_false_iff in Hne ]).
      pose proof (check_operators_cases ev ops) as Hops.
      destruct (check_operators ev ops) as [ [ | ] | e ]; simpl.
      * apply Hskip; [ reflexivity | ].
        intros ev' Hev'. inversion Hev'; subst. exact Hops.
      * apply (Hhead condition_fails ev eq_refl). exact Hops.
      * destruct Hops as (-> & Hr). split; [ reflexivity | ].
        apply (Hhead condition_raises ev eq_refl). exact Hr.
    + apply Hskip; [ reflexivity | ]. intros ev Hev. discriminate.
Qed.

Lemma first_condition_in (P : pyval -> pyval -> Prop) (event_data items : dict) :
  first_condition P event_data items ->
  exists key condition ev,
    In (key, condition) items /\ dict_get event_data key = Some ev /\ P ev condition.
Proof.
  intros (before & key & condition & ev & after & -> & _ & Hget & Hp).
  exists key, condition, ev.
  split; [ apply in_or_app; right; now left | auto ].
Qed.

Lemma all_hold_not_fails_first (event_data items : dict) :
  all_hold event_data items -> fails_first event_data items -> False.
Proof.
  intros Hall Hf. apply first_condition_in in Hf.
  destruct Hf as (key & condition & ev & Hin & Hget & Hf).
  eapply condition_holds_not_fails; eauto.
Qed.

Lemma all_hold_not_raises_first (event_data items : dict) :
  all_hold event_data items -> raises_first event_data items -> False.
Proof.
  intros Hall Hr. apply first_condition_in in Hr.
  destruct Hr as (key & condition & ev & Hin & Hget & Hr).
  eapply condition_holds_not_raises; eauto.
Qed.

Lemma fails_first_not_raises_first (event_data items : dict) :
  fails_first event_data items -> raises_first event_data items -> False.
Proof.
  intros (a1 & k & c & v & a2 & -> & Ha & Hget & Hf)
         (b1 & k' & c' & v' & b2 & Hcut & Hb & Hget' & Hr).
  destruct (cut_twice _ _ _ _ _ _ Hcut) as [ (_ & Heq & _) | [ Hin | Hin ] ].
  - inversion Heq; subst. rewrite Hget in Hget'. inversion Hget'; subst.
    eapply condition_fails_not_raises; eauto.
  - eapply condition_holds_not_fails; [ apply (Hb _ _ _ Hin Hget) | exact Hf ].
  - eapply condition_holds_not_raises; [ apply (Ha _ _ _ Hin Hget') | exact Hr ].
Qed.

(* ===================================================================== *)
(** * The condition checker: results *)
(* ===================================================================== *)

(** C7 (as amended).  The checker walks the condition tree in order,
    passing over the keys the event does not have, and each sub-mapping
    in order.  An operator is refused by the comparison the code
    evaluates: [$gt] when the event value is [<=] the condition value,
    [$lt] when it is [>=], [$eq] when it differs; a plain literal is
    refused when the event value differs from it; other operator names
    ask nothing.  The checker returns true exactly when nothing is
    refused and every ordering asked is defined.  It returns false
    exactly when the first operator or literal that does not hold is a
    refused one.  It raises exactly when the first that does not hold is
    a [$gt] or [$lt] between two values Python cannot order, and the
    exception is then [TypeError], whatever fails later in the tree. *)
Theorem check_conditions_characterised (event_data items : dict) :
  (_check_conditions event_data (PDict items) = Ok true
     <-> all_hold event_data items) /\
  (_check_conditions event_data (PDict items) = Ok false
     <-> fails_first event_data items) /\
  (forall e, _check_conditions event_data (PDict items) = Raise e
     <-> e = TypeError /\ raises_first event_data items).
Proof.
  unfold _check_conditions. simpl.
  apply outcome_iff.
  - apply check_items_cases.
  - apply all_hold_not_fails_first.
  - apply all_hold_not_raises_first.
  - apply fails_first_not_raises_first.
Qed.

(** C7, as stated, fails: the [$eq] on key b fails (1 is not 2), yet the
    checker does not return false, because the [$gt] on key a compares a
    string with a number first and raises. *)
Lemma failing_operator_behind_type_error :
  let event_data := [("a", PStr "x"); ("b", PNum 1)] in
  let items := [("a", PDict [("$gt", PNum 1)]); ("b", PDict [("$eq", PNum 2)])] in
  In ("b", PDict [("$eq", PNum 2)]) items /\
  dict_get event_data "b" = Some (PNum 1) /\
  operator_fails (PNum 1) "$eq" (PNum 2) /\
  _check_conditions event_data (PDict items) = Raise TypeError.
Proof.
  simpl. repeat split.
  - right. left. reflexivity.
  - right. right. split; reflexivity.
Qed.

(** The spec's two [$gt] examples, and a tree with a failing [$eq] and an
    undefined [$gt] in either order, through the characterisation: the
    one met first decides. *)
Lemma check_conditions_characterised_witness :
  let price_above_50 := PDict [("price", PDict [("$gt", PNum 50)])] in
  let event_data := [("a", PStr "x"); ("b", PNum 1)] in
  let a_above_1 := ("a", PDict [("$gt", PNum 1)]) in
  let b_is_2 := ("b", PDict [("$eq", PNum 2)]) in
  _check_conditions [("price", PNum 100)] price_above_50 = Ok true /\
  _check_conditions [("price", PNum 40)] price_above_50 = Ok false /\
  _check_conditions event_data (PDict [b_is_2; a_above_1]) = Ok false /\
  _check_conditions event_data (PDict [a_above_1; b_is_2]) = Raise TypeError.
Proof.
  cbv zeta. split; [ | split; [ | split ] ].
  - apply (proj1 (check_conditions_characterised _ _)).
    intros key condition ev [Heq | []] Hget.
    inversion Heq; subst. simpl in Hget. inversion Hget; subst.
    intros op value [Hop | []]. inversion Hop; subst.
    repeat split; intros; try discriminate; reflexivity.
  - apply (proj1 (proj2 (check_conditions_characterised _ _))).
    exists [], "price", (PDict [("$gt", PNum 50)]), (PNum 40), [].
    split; [ reflexivity | ]. split; [ intros ? ? ? [] | ].
    split; [ reflexivity | ].
    exists [], "$gt", (PNum 50), [].
    split; [ reflexivity | ]. split; [ intros ? ? [] | ].
    left. split; reflexivity.
  - apply (proj1 (proj2 (check_conditions_characterised _ _))).
    exists [], "b", (PDict [("$eq", PNum 2)]), (PNum 1), [("a", PDict [("$gt", PNum 1)])].
    split; [ reflexivity | ]. split; [ intros ? ? ? [] | ].
    split; [ reflexivity | ].
    exists [], "$eq", (PNum 2), [].
    split; [ reflexivity | ]. split; [ intros ? ? [] | ].
    right. right. split; reflexivity.
  - apply (proj2 (proj2 (check_conditions_characterised _ _))).
    split; [ reflexivity | ].
    exists [], "a", (PDict [("$gt", PNum 1)]), (PStr "x"), [("b", PDict [("$eq", PNum 2)])].
    split; [ reflexivity | ]. split; [ intros ? ? ? [] | ].
    split; [ reflexivity | ].
    exists [], "$gt", (PNum 1), [].
    split; [ reflexivity | ]. split; [ intros ? ? [] | ].
    left. split; reflexivity.
Defined.

(** C8.  A key of the condition tree that the event does not have is
    skipped: the checker answers as if the key were not in the tree, so
    it cannot make the match fail. *)
Theorem missing_key_is_skipped (event_data before after : dict)
    (key : string) (condition : pyval) :
  dict_get event_data key = None ->
  _check_conditions event_data (PDict (before ++ (key, condition) :: after))
  = _check_conditions event_data (PDict (before ++ after)).
Proof.
  intros Hnone. unfold _check_conditions. simpl.
  induction before as [ | [k c] rest IH ]; simpl.
  - now rewrite Hnone.
  - destruct (dict_get event_data k) as [ev | ]; [ | exact IH ].
    destruct c; try (destruct (py_ne ev _); [ reflexivity | exact IH ]).
    destruct (check_operators ev d) as [ [ | ] | e ]; simpl;
      [ exact IH | reflexivity | reflexivity ].
Qed.

(** The spec's example: event [{"a": 1}] against condition [{"b": 5}]. *)
Lemma missing_key_is_skipped_witness :
  dict_get [("a", PNum 1)] "b" = None /\
  _check_conditions [("a", PNum 1)] (PDict [("b", PNum 5)]) = Ok true.
Proof.
  split; [ reflexivity | ].
  exact (eq_trans
           (missing_key_is_skipped [("a", PNum 1)] [] [] "b" (PNum 5) eq_refl)
           eq_refl).
Defined.

(* ===================================================================== *)
(** * Facts about the store *)
(* ===================================================================== *)

Lemma visible_put_visible (t : tables) (c : conn) : visible (put_visible t c) = t.
Proof. unfold visible, put_visible. destruct (txn c); reflexivity. Qed.

Lemma put_visible_same (c : conn) : put_visible (visible c) c = c.
Proof. destruct c as [cm [t | ] n k ttl]; reflexivity. Qed.

Lemma set_steps_same (t : tables) : set_steps t (ops_mission_steps t) = t.
Proof. destruct t; reflexivity. Qed.

Lemma update_where_untouched {R} (where_ : R -> bool) (set : R -> R) (rows : list R) :
  filter where_ rows = [] -> update_where where_ set rows = rows.
Proof.
  induction rows as [ | r rows IH ]; simpl; [ reflexivity | ].
  destruct (where_ r); [ discriminate | ]. intros H. now rewrite IH.
Qed.

Lemma In_update_where {R} (where_ : R -> bool) (set : R -> R) (rows : list R) (r' : R) :
  In r' (update_where where_ set rows) <->
  exists r, In r rows /\ r' = (if where_ r then set r else r).
Proof.
  unfold update_where. rewrite in_map_iff.
  split; intros (r & H1 & H2); exists r; auto.
Qed.


(** [claim_step], statement by statement. *)
Lemma claim_step_run (step_id : uuid) (assigned_to : string) (c : conn) :
  claim_step step_id assigned_to c =
  match filter (is_queued step_id) (steps_of c) with
  | [] => (c, Ok false)
  | _ :: _ =>
      (put_visible (set_steps (visible c)
         (update_where (is_queued step_id) (claimed assigned_to (clock c)) (steps_of c))) c,
       Ok true)
  end.
Proof.
  unfold claim_step, update_steps_returning, bind, sql_now, sql_query, sql_write, ret.
  simpl. fold (is_queued step_id). unfold steps_of.
  destruct (filter (is_queued step_id) (ops_mission_steps (visible c))) eqn:Hf.
  - rewrite (update_where_untouched _ _ _ Hf), set_steps_same, put_visible_same.
    reflexivity.
  - reflexivity.
Qed.


(** [complete_step], statement by statement. *)
Lemma complete_step_run (step_id : uuid) (result_data : option pyval)
    (error : option string) (c : conn) :
  complete_step step_id result_data error c =
  match filter (is_running step_id) (steps_of c) with
  | [] => (c, Ok false)
  | s :: _ =>
      let c1 := after_completion step_id result_data error c in
      if Nat.eqb (List.length (filter (is_pending (s_mission_id s)) (steps_of c1))) 0
      then (fst (mark_mission_succeeded (s_mission_id s) c1), Ok true)
      else (c1, Ok true)
  end.
Proof.
  unfold complete_step, update_steps_returning, count_pending,
    bind, sql_now, sql_query, sql_write, ret.
  simpl. fold (is_running step_id). fold (status_of_error error).
  fold (json_of_result result_data). unfold after_completion, steps_of.
  destruct (filter (is_running step_id) (ops_mission_steps (visible c))) eqn:Hf.
  - simpl.
    rewrite (update_where_untouched _ _ _ Hf), set_steps_same, put_visible_same.
    reflexivity.
  - simpl.
    match goal with |- context [Nat.eqb ?n 0] => destruct (Nat.eqb n 0) end;
      reflexivity.
Qed.

Lemma Forall2_update_where {R} (where_ : R -> bool) (set : R -> R) (rows : list R) :
  Forall2 (fun r r' => r' = if where_ r then set r else r)
          rows (update_where where_ set rows).
Proof. induction rows; simpl; constructor; auto. Qed.

Lemma Forall2_weaken {A B} (P Q : A -> B -> Prop) (xs : list A) (ys : list B) :
  (forall x y, P x y -> Q x y) -> Forall2 P xs ys -> Forall2 Q xs ys.
Proof. intros H F. induction F; constructor; auto. Qed.

Lemma filter_update_where_nil {R} (where_ : R -> bool) (set : R -> R) (rows : list R) :
  (forall r, where_ r = true -> where_ (set r) = false) ->
  filter where_ (update_where where_ set rows) = [].
Proof.
  intros H. induction rows as [ | r rows IH ]; simpl; [ reflexivity | ].
  destruct (where_ r) eqn:Hr.
  - now rewrite (H r Hr).
  - now rewrite Hr.
Qed.

Lemma existsb_filter_nil {R} (p : R -> bool) (rows : list R) :
  existsb p rows = false <-> filter p rows = [].
Proof.
  induction rows as [ | r rows IH ]; simpl; [ tauto | ].
  destruct (p r); simpl; [ split; discriminate | exact IH ].
Qed.

Lemma steps_of_put_visible (t : tables) (c : conn) :
  steps_of (put_visible t c) = ops_mission_steps t.
Proof. unfold steps_of. now rewrite visible_put_visible. Qed.

Lemma steps_of_mark_mission_succeeded (mission_id : uuid) (c : conn) :
  steps_of (fst (mark_mission_succeeded mission_id c)) = steps_of c.
Proof.
  unfold mark_mission_succeeded, bind, sql_now, sql_write. simpl.
  now rewrite steps_of_put_visible.
Qed.

Lemma steps_of_after_completion (step_id : uuid) (result_data : option pyval)
    (error : option string) (c : conn) :
  steps_of (after_completion step_id result_data error c) =
  update_where (is_running step_id)
    (completed (status_of_error error) (json_of_result result_data) error (clock c))
    (steps_of c).
Proof. unfold after_completion. now rewrite steps_of_put_visible. Qed.

Lemma status_of_error_for (error : option string) :
  status_of_error error = status_for error.
Proof. destruct error as [ [ | ch s ] | ]; reflexivity. Qed.

Lemma json_of_result_recorded (result_data : option pyval) :
  json_of_result result_data = recorded_result result_data.
Proof.
  unfold json_of_result. destruct result_data as [ v | ]; simpl; [ | reflexivity ].
  destruct (py_truthy v); reflexivity.
Qed.

(** The steps after a call to [complete_step]. *)
Lemma steps_of_complete_step (step_id : uuid) (result_data : option pyval)
    (error : option string) (c : conn) :
  steps_of (fst (complete_step step_id result_data error c)) =
  update_where (is_running step_id)
    (completed (status_of_error error) (json_of_result result_data) error (clock c))
    (steps_of c).
Proof.
  rewrite complete_step_run.
  destruct (filter (is_running step_id) (steps_of c)) as [ | s hit ] eqn:Hf.
  - simpl. symmetry. now apply update_where_untouched.
  - cbv zeta.
    match goal with |- context [Nat.eqb ?n 0] => destruct (Nat.eqb n 0) end; cbn [fst].
    + now rewrite steps_of_mark_mission_succeeded, steps_of_after_completion.
    + apply steps_of_after_completion.
Qed.

Lemma completed_not_running (step_id : uuid) (result_data : option pyval)
    (error : option string) (now : timestamp) (s : step_row) :
  is_running step_id
    (completed (status_of_error error) (json_of_result result_data) error now s) = false.
Proof.
  unfold is_running, completed, status_of_error. simpl.
  destruct (str_truthy error); simpl; apply andb_false_r.
Qed.

(* ===================================================================== *)
(** * The step ledger: completion *)
(* ===================================================================== *)

(** C3 (as amended).  When some step with the given id is running,
    [complete_step] returns true and rewrites exactly the running rows of
    that id: status failed when the error is a non-empty message,
    succeeded when the error is absent or the empty string; the error
    text and the completion time are recorded; the result payload is
    recorded when it is not empty, and null is recorded when no payload
    is given or the payload is empty.  When no step of that id is
    running, it returns false and the connection is unchanged.  After any
    call, a further call on the same id returns false and changes
    nothing. *)
Theorem complete_step_transition (c : conn) (step_id : uuid)
    (result_data : option pyval) (error : option string) :
  let out := complete_step step_id result_data error c in
  (existsb (is_running step_id) (steps_of c) = true ->
     snd out = Ok true /\
     Forall2 (fun s s' => if is_running step_id s
                          then completes_to result_data error (clock c) s s'
                          else s' = s)
             (steps_of c) (steps_of (fst out))) /\
  (existsb (is_running step_id) (steps_of c) = false -> out = (c, Ok false)) /\
  (forall result_data' error',
     complete_step step_id result_data' error' (fst out) = (fst out, Ok false)).
Proof.
  cbv zeta. split; [ | split ].
  - intros Hex. split.
    + rewrite complete_step_run.
      destruct (filter (is_running step_id) (steps_of c)) eqn:Hf.
      * apply existsb_filter_nil in Hf. congruence.
      * cbv zeta.
        match goal with |- context [Nat.eqb ?n 0] => destruct (Nat.eqb n 0) end;
          reflexivity.
    + rewrite steps_of_complete_step.
      eapply Forall2_weaken; [ | apply Forall2_update_where ].
      intros s s' ->. simpl.
      destruct (is_running step_id s); [ | reflexivity ].
      unfold completes_to, completed. simpl.
      rewrite status_of_error_for, json_of_result_recorded.
      repeat split; reflexivity.
  - intros Hex. apply existsb_filter_nil in Hex.
    rewrite complete_step_run, Hex. reflexivity.
  - intros result_data' error'.
    rewrite (complete_step_run step_id result_data' error').
    rewrite steps_of_complete_step, filter_update_where_nil; [ reflexivity | ].
    intros s _. apply completed_not_running.
Qed.

(** C3, as stated, fails twice.  An error that is present but empty
    leaves the running step succeeded, not failed; and a result payload
    that is an empty mapping is not recorded: the row holds null. *)
Lemma empty_error_completes_succeeded :
  let s := mk_step 2%N 1%N (PStr "analyze") (PDict []) (PStr "sage") running
                   (Some 900%Z) None None 10%Z (Some 20%Z) None in
  let m := mk_mission 1%N "m" "ops" "entry" None (PDict []) mission_running 5%Z None in
  let c := mk_conn (mk_tables [] [m] [s] []) None 3%N 30%Z None in
  let out := complete_step 2%N None (Some EmptyString) c in
  let out' := complete_step 2%N (Some (PDict [])) None c in
  snd out = Ok true /\
  map s_status (steps_of (fst out)) = [succeeded] /\
  map s_error (steps_of (fst out)) = [Some EmptyString] /\
  snd out' = Ok true /\
  map s_result (steps_of (fst out')) = [None].
Proof. vm_compute. repeat split. Qed.

(** A running step completed with a payload and an error, then completed
    again: the row is failed and holds the payload, the error text and
    the time; the second call returns false. *)
Lemma complete_step_transition_witness :
  let s := mk_step 2%N 1%N (PStr "analyze") (PDict []) (PStr "sage") running
                   (Some 900%Z) None None 10%Z (Some 20%Z) None in
  let m := mk_mission 1%N "m" "ops" "entry" None (PDict []) mission_running 5%Z None in
  let c := mk_conn (mk_tables [] [m] [s] []) None 3%N 30%Z None in
  let partial := Some (PDict [("filled", PNum 0)]) in
  let out := complete_step 2%N partial (Some "boom") c in
  snd out = Ok true /\
  Forall2 (fun s s' => if is_running 2%N s
                       then completes_to partial (Some "boom") 30%Z s s' else s' = s)
          [s] (steps_of (fst out)) /\
  map s_status (steps_of (fst out)) = [failed] /\
  map s_result (steps_of (fst out)) = [partial] /\
  complete_step 2%N None None (fst out) = (fst out, Ok false).
Proof.
  cbv zeta.
  match goal with
  | |- context [complete_step 2%N ?rd (Some "boom") ?c] =>
      pose proof (complete_step_transition c 2%N rd (Some "boom")) as H
  end.
  cbv zeta in H. destruct H as (H1 & _ & H3).
  destruct (H1 eq_refl) as (Ha & Hb).
  split; [ exact Ha | ]. split; [ exact Hb | ].
  split; [ vm_compute; reflexivity | ]. split; [ vm_compute; reflexivity | ].
  apply H3.
Defined.

(** C10.  An empty mapping as result payload, with no error, is the same
    call as no result at all: the two calls return the same answer and
    leave the same connection, and every row they complete has a null
    result and status succeeded. *)
Theorem complete_step_empty_result_is_null (c : conn) (step_id : uuid) :
  complete_step step_id (Some (PDict [])) None c = complete_step step_id None None c /\
  Forall2 (fun s s' => is_running step_id s = true ->
                       s_result s' = None /\ s_status s' = succeeded)
          (steps_of c)
          (steps_of (fst (complete_step step_id (Some (PDict [])) None c))).
Proof.
  split; [ reflexivity | ].
  rewrite steps_of_complete_step.
  eapply Forall2_weaken; [ | apply Forall2_update_where ].
  intros s s' -> Hrun. simpl. rewrite Hrun. split; reflexivity.
Qed.

(* ===================================================================== *)
(** * The compiler, statement by statement *)
(* ===================================================================== *)

Lemma for_each_create_step_run (mission_id : uuid) (templates : list pyval) :
  forall (c : conn) (t : tables), txn c = Some t ->
  for_each templates (create_step mission_id) c =
  let '(rows, next', r) :=
    built_steps mission_id (next_uuid c) (clock c) (step_ttl c) templates in
  (mk_conn (committed c) (Some (set_steps t (ops_mission_steps t ++ rows)))
           next' (clock c) (step_ttl c), r).
Proof.
  induction templates as [ | tpl rest IH ]; intros c t Ht;
    destruct c as [cm tx n k ttl]; simpl in Ht; subst tx.
  - simpl. unfold ret. now rewrite app_nil_r, set_steps_same.
  - destruct tpl as [ | b | q | s | l | d ];
      try (simpl; unfold bind, create_step, bind, lift; simpl;
           now rewrite app_nil_r, set_steps_same).
    simpl for_each. unfold bind at 1.
    unfold create_step, bind, lift, insert_step, bind, gen_uuid, sql_now, sql_write.
    simpl. unfold put_visible, visible. simpl.
    erewrite IH by reflexivity. simpl.
    destruct (built_steps mission_id (N.succ n) k ttl rest) as [ [rows next'] r ].
    unfold set_steps. simpl. rewrite <- app_assoc. reflexivity.
Qed.

Lemma create_mission_from_proposal_run (proposal_id : uuid) (created_by : string)
    (c : conn) :
  create_mission_from_proposal proposal_id created_by c =
  match find (accepted_with_id proposal_id) (ops_trading_proposals (visible c)) with
  | None => (rolled_back c (next_uuid c),
             Raise (ValueError "Proposal not found or not accepted"))
  | Some p =>
      match py_iter (p_proposed_steps p) with
      | Raise e => (rolled_back c (N.succ (next_uuid c)), Raise e)
      | Ok templates =>
          let '(rows, next', r) :=
            built_steps (next_uuid c) (N.succ (next_uuid c)) (clock c) (step_ttl c)
                        templates in
          match r with
          | Raise e => (rolled_back c next', Raise e)
          | Ok _ =>
              (mk_conn (compiled_tables c proposal_id created_by p rows) None next'
                       (clock c) (step_ttl c),
               Ok (next_uuid c))
          end
      end
  end.
Proof.
  unfold create_mission_from_proposal, try_except.
  unfold bind at 1. unfold sql_begin at 1.
  unfold bind at 1. unfold select_accepted_proposal, sql_query.
  cbn [visible txn]. fold (accepted_with_id proposal_id).
  destruct (find (accepted_with_id proposal_id) (ops_trading_proposals (visible c)))
    as [p | ]; [ | reflexivity ].
  unfold bind at 1. unfold insert_mission, bind, gen_uuid, sql_now, sql_write, ret, lift.
  cbn [visible txn put_visible committed next_uuid clock step_ttl].
  destruct (py_iter (p_proposed_steps p)) as [templates | e]; [ | reflexivity ].
  erewrite for_each_create_step_run by reflexivity.
  cbn [visible txn put_visible committed next_uuid clock step_ttl].
  destruct (built_steps (next_uuid c) (N.succ (next_uuid c)) (clock c) (step_ttl c) templates)
    as [ [rows next'] [ [] | e ] ]; reflexivity.
Qed.

Lemma built_steps_of_dicts (mission_id : uuid) (now : timestamp) (ttl : option Z)
    (templates : list dict) :
  forall next : uuid,
  exists rows,
    built_steps mission_id next now ttl (map PDict templates)
      = (rows, (next + N.of_nat (List.length templates))%N, Ok tt) /\
    Forall2 (step_from_template mission_id now) templates rows /\
    map s_id rows = keys_from next (List.length templates).
Proof.
  induction templates as [ | d rest IH ]; intros next.
  - exists []. simpl. rewrite N.add_0_r. repeat split; constructor.
  - destruct (IH (N.succ next)) as (rows & Hrun & Hrows & Hkeys).
    eexists. cbn [map built_steps]. rewrite Hrun. split; [ | split ].
    + f_equal. f_equal. cbn [List.length]. lia.
    + constructor; [ | exact Hrows ]. repeat split.
    + cbn [map List.length keys_from s_id new_step]. now rewrite Hkeys.
Qed.

(** Keys of the rows the loop inserts lie between the counter before and
    the counter after. *)
Lemma built_steps_keys (mission_id : uuid) (now : timestamp) (ttl : option Z)
    (templates : list pyval) :
  forall (next next' : uuid) (rows : list step_row) (r : result unit),
  built_steps mission_id next now ttl templates = (rows, next', r) ->
  (next <= next')%N /\
  forall s, In s rows -> (next <= s_id s < next')%N /\ s_mission_id s = mission_id.
Proof.
  induction templates as [ | tpl rest IH ]; intros next next' rows r Hrun.
  - simpl in Hrun. inversion Hrun; subst. split; [ lia | intros s [] ].
  - destruct tpl as [ | b | q | s0 | l | d ];
      try (simpl in Hrun; inversion Hrun; subst; split; [ lia | intros s [] ]).
    cbn [built_steps] in Hrun.
    destruct (built_steps mission_id (N.succ next) now ttl rest)
      as [ [rows0 next0] r0 ] eqn:Hrest.
    inversion Hrun; subst. destruct (IH _ _ _ _ Hrest) as (Hle & Hin).
    split; [ lia | ].
    intros s [<- | Hs].
    + simpl. split; [ lia | reflexivity ].
    + destruct (Hin s Hs) as (Hk & Hm). split; [ lia | exact Hm ].
Qed.

(* ===================================================================== *)
(** * The compiler: results *)
(* ===================================================================== *)

(** C4.  When no proposal with the given id is accepted, compilation
    raises the precondition error ([ValueError]) and rolls back.  And
    whenever compilation raises, at whatever point, what is committed is
    what was committed before: no mission row, no step row and no
    proposal change survive, and no transaction is left open. *)
Theorem compile_failure_persists_nothing (c : conn) (proposal_id : uuid)
    (created_by : string) :
  ((forall p, In p (ops_trading_proposals (visible c)) ->
              p_id p = proposal_id -> p_status p <> accepted) ->
   create_mission_from_proposal proposal_id created_by c =
   (rolled_back c (next_uuid c),
    Raise (ValueError "Proposal not found or not accepted"))) /\
  (forall c' e,
     create_mission_from_proposal proposal_id created_by c = (c', Raise e) ->
     committed c' = committed c /\ txn c' = None).
Proof.
  rewrite create_mission_from_proposal_run. split.
  - intros Hnone.
    destruct (find (accepted_with_id proposal_id) (ops_trading_proposals (visible c)))
      as [p | ] eqn:Hfind; [ exfalso | reflexivity ].
    apply find_some in Hfind. destruct Hfind as (Hin & Hacc).
    unfold accepted_with_id in Hacc. apply andb_true_iff in Hacc.
    destruct Hacc as (Hid & Hst). apply N.eqb_eq in Hid.
    apply (Hnone p Hin Hid). destruct (p_status p); simpl in Hst; congruence.
  - intros c' e.
    destruct (find (accepted_with_id proposal_id) (ops_trading_proposals (visible c)))
      as [p | ]; [ | intros H; inversion H; subst; split; reflexivity ].
    destruct (py_iter (p_proposed_steps p)) as [templates | e0];
      [ | intros H; inversion H; subst; split; reflexivity ].
    destruct (built_steps (next_uuid c) (N.succ (next_uuid c)) (clock c) (step_ttl c)
                templates) as [ [rows next'] [ [] | e0 ] ];
      intros H; inversion H; subst; split; reflexivity.
Qed.

(** A pending proposal is refused; and an accepted proposal whose second
    template is not a mapping fails after the mission and the first step
    were inserted, and nothing of them is committed. *)
Lemma compile_failure_persists_nothing_witness :
  let pend := mk_proposal 1%N "intel" "BTC" "KOL" (PList []) pending None in
  let bad := mk_proposal 2%N "intel" "ETH" "KOL"
               (PList [PDict [("kind", PStr "analyze")]; PStr "oops"])
               accepted None in
  let c := mk_conn (mk_tables [pend; bad] [] [] []) None 3%N 100%Z (Some 600%Z) in
  create_mission_from_proposal 1%N "ops" c
    = (c, Raise (ValueError "Proposal not found or not accepted")) /\
  snd (create_mission_from_proposal 2%N "ops" c) = Raise AttributeError /\
  committed (fst (create_mission_from_proposal 2%N "ops" c)) = committed c /\
  txn (fst (create_mission_from_proposal 2%N "ops" c)) = None.
Proof.
  cbv zeta. split; [ | split; [ reflexivity | ] ].
  - match goal with
    | |- create_mission_from_proposal _ _ ?c = _ =>
        refine (proj1 (compile_failure_persists_nothing c 1%N "ops") _)
    end.
    intros p [<- | [<- | []]] Hid; simpl in *; congruence.
  - match goal with
    | |- context [create_mission_from_proposal 2%N "ops" ?c] =>
        exact (proj2 (compile_failure_persists_nothing c 2%N "ops") _ AttributeError
                 (surjective_pairing _))
    end.
Defined.

(** C9.  For an accepted proposal whose step templates are a sequence of
    mappings, compilation returns the new mission's id and commits
    exactly one more mission and, appended in template order, exactly one
    queued step per template, each built from the template at the same
    position and keyed in that order. *)
Theorem compile_creates_mission_and_steps (c : conn) (proposal_id : uuid)
    (created_by : string) (p : proposal_row) (templates : list dict) :
  find (accepted_with_id proposal_id) (ops_trading_proposals (visible c)) = Some p ->
  p_proposed_steps p = PList (map PDict templates) ->
  exists c' rows,
    create_mission_from_proposal proposal_id created_by c = (c', Ok (next_uuid c)) /\
    txn c' = None /\
    ops_missions (committed c')
      = ops_missions (visible c) ++ [mission_for c proposal_id created_by p] /\
    ops_mission_steps (committed c') = ops_mission_steps (visible c) ++ rows /\
    Forall2 (step_from_template (next_uuid c) (clock c)) templates rows /\
    map s_id rows = keys_from (N.succ (next_uuid c)) (List.length templates).
Proof.
  intros Hfind Hsteps.
  rewrite create_mission_from_proposal_run, Hfind, Hsteps. cbn [py_iter].
  destruct (built_steps_of_dicts (next_uuid c) (clock c) (step_ttl c) templates
              (N.succ (next_uuid c))) as (rows & Hrun & Hrows & Hkeys).
  rewrite Hrun. eexists. exists rows.
  split; [ reflexivity | ]. repeat split; assumption.
Qed.

(** The proposal of the module's own example: analyze, then execute. *)
Lemma compile_creates_mission_and_steps_witness :
  let t1 := [("kind", PStr "analyze"); ("assigned_to", PStr "sage")] in
  let t2 := [("kind", PStr "execute_trade"); ("assigned_to", PStr "scout")] in
  let p := mk_proposal 1%N "intel" "BTC accumulation signal" "KOL_accumulation"
             (PList [PDict t1; PDict t2]) accepted None in
  let c := mk_conn (mk_tables [p] [] [] []) None 2%N 100%Z (Some 600%Z) in
  exists c' rows,
    create_mission_from_proposal 1%N "ops" c = (c', Ok 2%N) /\
    txn c' = None /\
    ops_missions (committed c') = [mission_for c 1%N "ops" p] /\
    ops_mission_steps (committed c') = rows /\
    Forall2 (step_from_template 2%N 100%Z) [t1; t2] rows /\
    map s_id rows = [3%N; 4%N].
Proof.
  cbv zeta.
  match goal with
  | |- context [create_mission_from_proposal 1%N "ops" ?c] =>
      match goal with
      | |- context [mission_for c 1%N "ops" ?p] =>
          exact (compile_creates_mission_and_steps c 1%N "ops" p
                   [ [("kind", PStr "analyze"); ("assigned_to", PStr "sage")];
                     [("kind", PStr "execute_trade"); ("assigned_to", PStr "scout")] ]
                   eq_refl eq_refl)
      end
  end.
Defined.

(* ===================================================================== *)
(** * The step ledger: claiming *)
(* ===================================================================== *)

Lemma join_missions_ext (w1 w2 : step_row -> bool) (t : tables) :
  (forall s, w1 s = w2 s) -> join_missions w1 t = join_missions w2 t.
Proof. intros H. unfold join_missions. now rewrite (filter_ext w1 w2 H). Qed.

Lemma get_queued_steps_run (kind : option string) (limit : Z) (c : conn) :
  get_queued_steps kind limit c =
  (c, if (limit <? 0)%Z then Raise DataError
      else Ok (firstn (Z.to_nat limit)
                 (order_by (fun q => s_created_at (q_step q))
                    (join_missions (claimable (clock c) kind) (visible c))))).
Proof.
  unfold get_queued_steps, select_queued, bind, sql_now, sql_query, raise.
  destruct (limit <? 0)%Z; [ reflexivity | ].
  do 4 f_equal. apply join_missions_ext. intros s. unfold claimable.
  destruct kind as [ [ | ch k ] | ]; simpl; try reflexivity;
    now rewrite andb_true_r.
Qed.

Lemma evaluate_triggers_conn (event_data : dict) (c : conn) :
  fst (evaluate_triggers event_data c) = c.
Proof.
  unfold evaluate_triggers, select_triggers, bind, sql_now, sql_query, lift, ret, raise.
  destruct (dict_get event_data "event_type") as [ [ | b | q | s | l | d ] | ];
    reflexivity.
Qed.

Lemma steps_of_claim_step (step_id : uuid) (assigned_to : string) (c : conn) :
  steps_of (fst (claim_step step_id assigned_to c)) =
  update_where (is_queued step_id) (claimed assigned_to (clock c)) (steps_of c).
Proof.
  rewrite claim_step_run.
  destruct (filter (is_queued step_id) (steps_of c)) eqn:Hf; simpl.
  - symmetry. now apply update_where_untouched.
  - apply steps_of_put_visible.
Qed.

Lemma put_visible_session (t : tables) (c : conn) :
  next_uuid (put_visible t c) = next_uuid c /\
  (txn c = None -> txn (put_visible t c) = None).
Proof.
  unfold put_visible.
  destruct (txn c); simpl; (split; [ reflexivity | intros H; congruence ]).
Qed.

Lemma claim_step_session (step_id : uuid) (assigned_to : string) (c : conn) :
  next_uuid (fst (claim_step step_id assigned_to c)) = next_uuid c /\
  (txn c = None -> txn (fst (claim_step step_id assigned_to c)) = None).
Proof.
  rewrite claim_step_run.
  destruct (filter (is_queued step_id) (steps_of c)); simpl;
    [ auto | apply put_visible_session ].
Qed.

Lemma complete_step_session (step_id : uuid) (result_data : option pyval)
    (error : option string) (c : conn) :
  next_uuid (fst (complete_step step_id result_data error c)) = next_uuid c /\
  (txn c = None -> txn (fst (complete_step step_id result_data error c)) = None).
Proof.
  rewrite complete_step_run.
  destruct (filter (is_running step_id) (steps_of c)); [ simpl; auto | ].
  cbv zeta. pose proof (put_visible_session
    (set_steps (visible c)
       (update_where (is_running step_id)
          (completed (status_of_error error) (json_of_result result_data) error (clock c))
          (steps_of c))) c) as (Hn & Ht).
  fold (after_completion step_id result_data error c) in Hn, Ht.
  match goal with |- context [Nat.eqb ?n 0] => destruct (Nat.eqb n 0) end; cbn [fst].
  - unfold mark_mission_succeeded, bind, sql_now, sql_write. cbn [fst].
    match goal with |- context [put_visible ?t ?c1] =>
      destruct (put_visible_session t c1) as (Hn' & Ht') end.
    rewrite Hn', Hn. auto.
  - auto.
Qed.

Lemma claimed_not_queued (step_id : uuid) (assigned_to : string) (now : timestamp)
    (sid : uuid) (s : step_row) :
  is_queued sid (claimed assigned_to now s) = false.
Proof. unfold is_queued, claimed. simpl. apply andb_false_r. Qed.

Lemma completed_not_queued (status : step_status) (result_json : option pyval)
    (error : option string) (now : timestamp) (sid : uuid) (s : step_row) :
  status <> queued -> is_queued sid (completed status result_json error now s) = false.
Proof.
  intros H. unfold is_queued, completed. simpl.
  destruct status; try congruence; simpl; apply andb_false_r.
Qed.

Lemma status_of_error_not_queued (error : option string) :
  status_of_error error <> queued.
Proof. unfold status_of_error. destruct (str_truthy error); discriminate. Qed.

(** One call of a session keeps a claimed step claimed. *)
Lemma run_call_never_queued (step_id : uuid) (now : timestamp) (k : call) (c : conn) :
  txn c = None -> (step_id < next_uuid c)%N -> never_queued step_id c ->
  txn (run_call now k c) = None /\
  (step_id < next_uuid (run_call now k c))%N /\
  never_queued step_id (run_call now k c).
Proof.
  intros Htxn Hkey Hnq.
  assert (Htxn' : txn (at_time now c) = None) by exact Htxn.
  assert (Hsteps : steps_of (at_time now c) = steps_of c).
  { unfold steps_of, visible. simpl. reflexivity. }
  destruct k as [pid by_ | kind limit | sid who | sid rd err | ev ]; unfold run_call.
  - rewrite create_mission_from_proposal_run.
    assert (Hrb : forall next, (next_uuid c <= next)%N ->
      txn (rolled_back (at_time now c) next) = None /\
      (step_id < next_uuid (rolled_back (at_time now c) next))%N /\
      never_queued step_id (rolled_back (at_time now c) next)).
    { intros next Hle. split; [ reflexivity | ]. split; [ simpl; lia | ].
      intros s Hs. apply Hnq. unfold steps_of, visible in *. simpl in Hs.
      now rewrite Htxn. }
    destruct (find _ _) as [p | ]; [ | apply Hrb; simpl; lia ].
    destruct (py_iter (p_proposed_steps p)) as [templates | e];
      [ | apply Hrb; simpl; lia ].
    destruct (built_steps _ _ _ _ templates) as [ [rows next'] r ] eqn:Hb.
    destruct (built_steps_keys _ _ _ _ _ _ _ _ Hb) as (Hle & Hrows).
    simpl in Hle.
    destruct r as [ [] | e ]; [ | apply Hrb; simpl in *; lia ].
    cbn [fst]. split; [ reflexivity | ]. split; [ simpl; lia | ].
    intros s Hs. unfold steps_of, visible in Hs. simpl in Hs.
    change (In s (steps_of c ++ rows)) in Hs.
    apply in_app_or in Hs. destruct Hs as [Hs | Hs].
    + now apply Hnq.
    + destruct (Hrows s Hs) as (Hk & _). simpl in Hk.
      unfold is_queued. apply andb_false_iff. left. apply N.eqb_neq. lia.
  - rewrite get_queued_steps_run. cbn [fst]. auto.
  - destruct (claim_step_session sid who (at_time now c)) as (Hn & Ht).
    split; [ auto | ]. split; [ rewrite Hn; exact Hkey | ].
    intros s Hs. rewrite steps_of_claim_step, Hsteps in Hs.
    apply In_update_where in Hs. destruct Hs as (s0 & Hin & ->).
    destruct (is_queued sid s0); [ apply (claimed_not_queued sid) | auto ].
  - destruct (complete_step_session sid rd err (at_time now c)) as (Hn & Ht).
    split; [ auto | ]. split; [ rewrite Hn; exact Hkey | ].
    intros s Hs. rewrite steps_of_complete_step, Hsteps in Hs.
    apply In_update_where in Hs. destruct Hs as (s0 & Hin & ->).
    destruct (is_running sid s0); [ | auto ].
    apply completed_not_queued, status_of_error_not_queued.
  - rewrite evaluate_triggers_conn. auto.
Qed.

Lemma run_calls_never_queued (step_id : uuid) (calls : list (timestamp * call)) :
  forall c, txn c = None -> (step_id < next_uuid c)%N -> never_queued step_id c ->
  never_queued step_id (run_calls calls c).
Proof.
  induction calls as [ | [now k] rest IH ]; intros c Htxn Hkey Hnq; simpl.
  - exact Hnq.
  - destruct (run_call_never_queued step_id now k c Htxn Hkey Hnq) as (H1 & H2 & H3).
    now apply IH.
Qed.

(** C2.  When some step with the given id is queued, [claim_step] returns
    true and rewrites exactly the queued rows of that id: running, with
    the assignee and the start time set.  When no step of that id is
    queued (claimed already, finished, or absent), it returns false,
    raises nothing and leaves the connection unchanged.  And once a claim
    has returned true, a claim on the same step by any caller returns
    false after any further calls of the session, in particular before
    any completion of that step. *)
Theorem claim_step_exclusive (c : conn) (step_id : uuid) (assigned_to : string) :
  let out := claim_step step_id assigned_to c in
  (existsb (is_queued step_id) (steps_of c) = true ->
     snd out = Ok true /\
     Forall2 (fun s s' => if is_queued step_id s
                          then claims_to assigned_to (clock c) s s'
                          else s' = s)
             (steps_of c) (steps_of (fst out))) /\
  (existsb (is_queued step_id) (steps_of c) = false -> out = (c, Ok false)) /\
  (snd out = Ok true -> txn c = None -> keys_issued c ->
   forall (calls : list (timestamp * call)) (now : timestamp) (other : string),
     let c2 := at_time now (run_calls calls (fst out)) in
     claim_step step_id other c2 = (c2, Ok false)).
Proof.
  cbv zeta. split; [ | split ].
  - intros Hex. split.
    + rewrite claim_step_run.
      destruct (filter (is_queued step_id) (steps_of c)) eqn:Hf; [ | reflexivity ].
      apply existsb_filter_nil in Hf. congruence.
    + rewrite steps_of_claim_step.
      eapply Forall2_weaken; [ | apply Forall2_update_where ].
      intros s s' ->. simpl.
      destruct (is_queued step_id s); [ | reflexivity ].
      unfold claims_to, claimed. simpl. repeat split; reflexivity.
  - intros Hex. apply existsb_filter_nil in Hex.
    rewrite claim_step_run, Hex. reflexivity.
  - intros Hok Htxn Hkeys calls now other.
    assert (Hkey : (step_id < next_uuid c)%N).
    { rewrite claim_step_run in Hok.
      destruct (filter (is_queued step_id) (steps_of c)) as [ | s hit ] eqn:Hf;
        [ discriminate | ].
      assert (Hs : In s (filter (is_queued step_id) (steps_of c)))
        by (rewrite Hf; now left).
      apply filter_In in Hs. destruct Hs as (Hin & Hq).
      unfold is_queued in Hq. apply andb_true_iff in Hq. destruct Hq as (Hid & _).
      apply N.eqb_eq in Hid. subst step_id. now apply Hkeys. }
    destruct (claim_step_session step_id assigned_to c) as (Hn & Ht).
    assert (Hnq : never_queued step_id (fst (claim_step step_id assigned_to c))).
    { intros s Hs. rewrite steps_of_claim_step in Hs.
      apply In_update_where in Hs. destruct Hs as (s0 & Hin & ->).
      destruct (is_queued step_id s0) eqn:Hq;
        [ apply (claimed_not_queued step_id) | exact Hq ]. }
    pose proof (run_calls_never_queued step_id calls _ (Ht Htxn)
                  ltac:(rewrite Hn; exact Hkey) Hnq) as Hfinal.
    rewrite claim_step_run.
    replace (filter (is_queued step_id)
               (steps_of (at_time now (run_calls calls
                  (fst (claim_step step_id assigned_to c)))))) with (@nil step_row);
      [ reflexivity | ].
    symmetry. apply existsb_filter_nil. apply not_true_is_false. intros Hex.
    apply existsb_exists in Hex. destruct Hex as (s & Hin & Hq).
    rewrite (Hfinal s Hin) in Hq. discriminate.
Qed.

(** A queued step is claimed by sage; the session then lists, compiles
    another proposal, and lets scout and sage try again: scout's later
    claim is refused. *)
Lemma claim_step_exclusive_witness :
  let s := mk_step 2%N 1%N (PStr "analyze") (PDict []) PNone queued
                   (Some 900%Z) None None 10%Z None None in
  let m := mk_mission 1%N "m" "ops" "entry" None (PDict []) mission_running 5%Z None in
  let p := mk_proposal 7%N "intel" "BTC" "KOL"
             (PList [PDict [("kind", PStr "execute_trade")]]) accepted None in
  let c := mk_conn (mk_tables [p] [m] [s] []) None 8%N 30%Z (Some 600%Z) in
  let out := claim_step 2%N "sage" c in
  let calls := [(31%Z, ListClaimable None 5%Z);
                (32%Z, Compile 7%N "ops");
                (33%Z, Claim 2%N "sage")] in
  let c2 := at_time 40%Z (run_calls calls (fst out)) in
  snd out = Ok true /\
  map s_status (steps_of (fst out)) = [running] /\
  claim_step 2%N "scout" c2 = (c2, Ok false).
Proof.
  cbv zeta. split; [ reflexivity | ]. split; [ reflexivity | ].
  match goal with
  | |- context [claim_step 2%N "sage" ?c] =>
      refine (proj2 (proj2 (claim_step_exclusive c 2%N "sage")) eq_refl eq_refl _
                _ 40%Z "scout")
  end.
  intros s [<- | []]. reflexivity.
Defined.

(* ===================================================================== *)
(** * The mission tracker *)
(* ===================================================================== *)

(** When a completion leaves no queued or running step in the mission of
    the completed step, that mission is marked succeeded, whether or not
    the completion, or any earlier one, carried an error. *)
Lemma last_completion_marks_mission_succeeded (c : conn) (step_id : uuid)
    (result_data : option pyval) (error : option string)
    (s : step_row) (hit : list step_row) :
  filter (is_running step_id) (steps_of c) = s :: hit ->
  let c' := fst (complete_step step_id result_data error c) in
  filter (is_pending (s_mission_id s)) (steps_of c') = [] ->
  forall m, In m (missions_of c') -> m_id m = s_mission_id s ->
            m_status m = mission_succeeded.
Proof.
  intros Hf. cbv zeta. rewrite steps_of_complete_step.
  rewrite complete_step_run, Hf. cbv zeta.
  rewrite steps_of_after_completion. intros Hnone. rewrite Hnone.
  cbn [List.length Nat.eqb fst].
  unfold mark_mission_succeeded, bind, sql_now, sql_write. cbn [fst].
  unfold missions_of. rewrite visible_put_visible. cbn [ops_missions set_missions].
  intros m Hm Hid. apply In_update_where in Hm. destruct Hm as (m0 & Hin & ->).
  destruct (N.eqb (m_id m0) (s_mission_id s)) eqn:Heq; [ reflexivity | ].
  apply N.eqb_neq in Heq. contradiction.
Qed.

(** C1, on the code.  A mission of two steps is compiled from an accepted
    proposal; the first step is claimed and completed with a result, the
    second is claimed and completed with an error.  Every step has then
    received its one successful completion, one of them with an error,
    and the mission is recorded as succeeded, where the specification asks for
    failed. *)
Theorem failed_step_leaves_mission_succeeded :
  let p := mk_proposal 1%N "intel" "BTC accumulation signal" "KOL_accumulation"
             (PList [PDict [("kind", PStr "analyze"); ("assigned_to", PStr "sage")];
                     PDict [("kind", PStr "execute_trade");
                            ("assigned_to", PStr "scout")]])
             accepted None in
  let c := mk_conn (mk_tables [p] [] [] []) None 2%N 100%Z (Some 600%Z) in
  let calls := [(110%Z, Compile 1%N "ops");
                (120%Z, Claim 3%N "sage");
                (130%Z, Complete 3%N (Some (PDict [("signal", PStr "buy")])) None);
                (140%Z, Claim 4%N "scout");
                (150%Z, Complete 4%N None (Some "order rejected"))] in
  let c' := run_calls calls c in
  map s_status (steps_of c') = [succeeded; failed] /\
  map s_error (steps_of c') = [None; Some "order rejected"] /\
  map m_id (missions_of c') = [2%N] /\
  map m_status (missions_of c') = [mission_succeeded].
Proof. vm_compute. repeat split. Qed.

(* ===================================================================== *)
(** * The step ledger: listing *)
(* ===================================================================== *)

Section OrderBy.
Context {R : Type} (key : R -> Z).

Lemma insert_by_perm (x : R) (rows : list R) :
  Permutation (insert_by key x rows) (x :: rows).
Proof.
  induction rows as [ | y rows IH ]; simpl; [ reflexivity | ].
  destruct (key x <? key y)%Z; [ reflexivity | ].
  rewrite IH. apply perm_swap.
Qed.

Lemma order_by_perm (rows : list R) : Permutation (order_by key rows) rows.
Proof.
  induction rows as [ | x rows IH ]; simpl; [ reflexivity | ].
  rewrite insert_by_perm. now constructor.
Qed.

Lemma insert_by_sorted (x : R) (rows : list R) :
  StronglySorted (ascending_by key) rows -> StronglySorted (ascending_by key) (insert_by key x rows).
Proof.
  induction 1 as [ | y rows Hs IH Hall ]; simpl.
  - constructor; constructor.
  - destruct (key x <? key y)%Z eqn:Hlt.
    + apply Z.ltb_lt in Hlt. constructor.
      * now constructor.
      * constructor; [ unfold ascending_by; lia | ].
        eapply Forall_impl; [ | exact Hall ]. unfold ascending_by. intros; lia.
    + apply Z.ltb_ge in Hlt. constructor; [ exact IH | ].
      eapply Permutation_Forall; [ symmetry; apply insert_by_perm | ].
      constructor; [ exact Hlt | exact Hall ].
Qed.

Lemma order_by_sorted (rows : list R) : StronglySorted (ascending_by key) (order_by key rows).
Proof.
  induction rows as [ | x rows IH ]; simpl; [ constructor | ].
  now apply insert_by_sorted.
Qed.

Lemma firstn_sorted (n : nat) (rows : list R) :
  StronglySorted (ascending_by key) rows -> StronglySorted (ascending_by key) (firstn n rows).
Proof.
  intros Hs. revert n. induction Hs as [ | y rows Hs IH Hall ]; intros [ | n ]; simpl;
    try constructor; auto.
  rewrite Forall_forall in *. intros z Hz. apply Hall.
  rewrite <- (firstn_skipn n rows). apply in_or_app. now left.
Qed.

Lemma firstn_incl (n : nat) (rows : list R) (x : R) :
  In x (firstn n rows) -> In x rows.
Proof.
  intros H. rewrite <- (firstn_skipn n rows). apply in_or_app. now left.
Qed.
End OrderBy.

Lemma step_status_eqb_eq (a b : step_status) : step_status_eqb a b = true <-> a = b.
Proof. destruct a, b; simpl; split; congruence. Qed.

Lemma text_eq_eq (col : pyval) (param : string) :
  text_eq col param = true <-> col = PStr param.
Proof.
  destruct col; simpl; try (split; congruence).
  rewrite String.eqb_eq. split; congruence.
Qed.

Lemma In_join_missions (where_ : step_row -> bool) (t : tables) (q : queued_row) :
  In q (join_missions where_ t) ->
  In (q_step q) (ops_mission_steps t) /\ where_ (q_step q) = true.
Proof.
  unfold join_missions. rewrite in_flat_map. intros (s & Hs & Hq).
  apply filter_In in Hs. apply in_map_iff in Hq. destruct Hq as (m & <- & _).
  exact Hs.
Qed.

(** C5 (as amended).  For a non-negative limit, [get_queued_steps] leaves
    the connection as it is and returns the first [limit] rows, oldest
    first, of the steps that are queued, whose timeout deadline is still
    ahead of the clock, and whose kind is the asked one when a non-empty
    kind is asked (an empty kind, like no kind, asks nothing). *)
Theorem get_queued_steps_claimable (c : conn) (kind : option string) (limit : Z) :
  (0 <= limit)%Z ->
  exists rows all,
    get_queued_steps kind limit c = (c, Ok rows) /\
    (forall q, In q rows ->
       In (q_step q) (steps_of c) /\
       s_status (q_step q) = queued /\
       (exists t, s_timeout_at (q_step q) = Some t /\ (clock c < t)%Z) /\
       (forall k, kind = Some k -> k <> EmptyString -> s_kind (q_step q) = PStr k)) /\
    StronglySorted oldest_first rows /\
    (Z.of_nat (List.length rows) <= limit)%Z /\
    Permutation all (join_missions (claimable (clock c) kind) (visible c)) /\
    StronglySorted oldest_first all /\
    rows = firstn (Z.to_nat limit) all.
Proof.
  intros Hlimit. rewrite get_queued_steps_run.
  destruct (limit <? 0)%Z eqn:Hneg; [ apply Z.ltb_lt in Hneg; lia | ].
  eexists. eexists. split; [ reflexivity | ].
  split; [ | split; [ | split; [ | split; [ | split ] ] ] ].
  - intros q Hq. apply firstn_incl in Hq.
    apply (Permutation_in _ (order_by_perm _ _)) in Hq.
    apply In_join_missions in Hq. destruct Hq as (Hin & Hc).
    unfold claimable in Hc. apply andb_true_iff in Hc. destruct Hc as (Hc & Hk).
    apply andb_true_iff in Hc. destruct Hc as (Hst & Hd).
    split; [ exact Hin | ]. split; [ now apply step_status_eqb_eq | ]. split.
    + unfold deadline_ahead in Hd. destruct (s_timeout_at (q_step q)) as [t | ];
        [ | discriminate ].
      exists t. split; [ reflexivity | now apply Z.ltb_lt ].
    + intros k -> Hne. destruct k as [ | ch k ]; [ congruence | ].
      now apply text_eq_eq.
  - apply firstn_sorted, order_by_sorted.
  - pose proof (firstn_le_length (Z.to_nat limit)
                  (order_by (fun q => s_created_at (q_step q))
                     (join_missions (claimable (clock c) kind) (visible c)))).
    lia.
  - apply order_by_perm.
  - apply order_by_sorted.
  - reflexivity.
Qed.

(** C5, as stated, fails: asked for the kind that is the empty string,
    the listing returns a step of kind "analyze". *)
Lemma empty_kind_is_not_a_filter :
  let s := mk_step 2%N 1%N (PStr "analyze") (PDict []) PNone queued
                   (Some 900%Z) None None 10%Z None None in
  let m := mk_mission 1%N "m" "ops" "entry" None (PDict []) mission_running 5%Z None in
  let c := mk_conn (mk_tables [] [m] [s] []) None 3%N 30%Z None in
  get_queued_steps (Some EmptyString) 5%Z c = (c, Ok [mk_queued s "m" "ops"]) /\
  s_kind s <> PStr EmptyString.
Proof. split; [ reflexivity | discriminate ]. Qed.

(** Two queued steps of one mission, one of them of the asked kind. *)
Lemma get_queued_steps_claimable_witness :
  let s1 := mk_step 2%N 1%N (PStr "analyze") (PDict []) PNone queued
                    (Some 900%Z) None None 10%Z None None in
  let s2 := mk_step 3%N 1%N (PStr "execute_trade") (PDict []) PNone queued
                    (Some 900%Z) None None 10%Z None None in
  let m := mk_mission 1%N "m" "ops" "entry" None (PDict []) mission_running 5%Z None in
  let c := mk_conn (mk_tables [] [m] [s1; s2] []) None 4%N 30%Z None in
  (0 <= 5)%Z /\
  exists rows all,
    get_queued_steps (Some "execute_trade") 5%Z c = (c, Ok rows) /\
    (forall q, In q rows ->
       In (q_step q) (steps_of c) /\
       s_status (q_step q) = queued /\
       (exists t, s_timeout_at (q_step q) = Some t /\ (clock c < t)%Z) /\
       (forall k, Some "execute_trade" = Some k -> k <> EmptyString ->
                  s_kind (q_step q) = PStr k)) /\
    StronglySorted oldest_first rows /\
    (Z.of_nat (List.length rows) <= 5)%Z /\
    Permutation all
      (join_missions (claimable (clock c) (Some "execute_trade")) (visible c)) /\
    StronglySorted oldest_first all /\
    rows = firstn (Z.to_nat 5) all.
Proof.
  cbv zeta. split; [ lia | ].
  apply get_queued_steps_claimable. lia.
Defined.

(* ===================================================================== *)
(** * The trigger registry *)
(* ===================================================================== *)

Lemma matching_all_evaluate (event_data : dict) (triggers : list trigger_row) :
  (forall tr, In tr triggers ->
     exists b, _check_conditions event_data (tr_conditions tr) = Ok b) ->
  matching event_data triggers = Ok (filter (passes event_data) triggers).
Proof.
  induction triggers as [ | tr rest IH ]; intros Hall; simpl; [ reflexivity | ].
  destruct (Hall tr (or_introl eq_refl)) as (b & Hb).
  unfold passes at 1. rewrite Hb. simpl.
  rewrite IH by (intros tr' Hin; apply Hall; now right). simpl.
  destruct b; reflexivity.
Qed.

Lemma matching_one_raises (event_data : dict) (triggers : list trigger_row) :
  (exists tr e, In tr triggers /\
     _check_conditions event_data (tr_conditions tr) = Raise e) ->
  exists e, matching event_data triggers = Raise e.
Proof.
  induction triggers as [ | tr rest IH ]; intros (tr0 & e & Hin & He);
    [ destruct Hin | ].
  simpl. destruct (_check_conditions event_data (tr_conditions tr)) as [b | e'] eqn:Hc;
    simpl; [ | eauto ].
  destruct Hin as [<- | Hin]; [ congruence | ].
  destruct (IH (ex_intro _ tr0 (ex_intro _ e (conj Hin He)))) as (e1 & ->).
  simpl. eauto.
Qed.

Lemma candidate_iff (now : timestamp) (ty : string) (tr : trigger_row) :
  candidate now ty tr = true <->
  tr_enabled tr = true /\ tr_trigger_event tr = ty /\ cooldown_elapsed now tr.
Proof.
  unfold candidate, cooldown_elapsed, off_cooldown.
  rewrite !andb_true_iff, String.eqb_eq.
  destruct (tr_last_fired_at tr) as [fired | ].
  - rewrite Z.ltb_lt. split.
    + intros ((He & Hc) & Ht). repeat split; auto. right. eauto.
    + intros (He & Ht & [Hn | (f & Hf & Hlt)]); [ discriminate | ].
      inversion Hf; subst. auto.
  - split; [ intros ((He & _) & Ht) | intros (He & Ht & _) ]; auto.
Qed.

Lemma evaluate_triggers_run (event_data : dict) (ty : string) (c : conn) :
  dict_get event_data "event_type" = Some (PStr ty) ->
  evaluate_triggers event_data c =
  (c, matching event_data
        (filter (candidate (clock c) ty) (ops_trigger_rules (visible c)))).
Proof.
  intros Hty. unfold evaluate_triggers, select_triggers, bind, sql_now, sql_query, lift.
  rewrite Hty. reflexivity.
Qed.

(** C6 (as amended).  For an event of kind [ty] (its ["event_type"]):
    when the condition tree of every enabled, off-cooldown rule for that
    kind can be evaluated, the registry returns, in table order, exactly
    the rules that are enabled, whose trigger event is [ty], whose
    cooldown window has elapsed and whose condition tree matches; a rule
    inside its cooldown window is not among them.  When the tree of one
    such rule raises, the exception propagates and no rule is returned.
    An event without a kind gets no rule.  The connection is left as it
    is in every case. *)
Theorem evaluate_triggers_exact (c : conn) (event_data : dict) (ty : string) :
  (dict_get event_data "event_type" = Some (PStr ty) ->
   (forall tr, In tr (ops_trigger_rules (visible c)) ->
      candidate (clock c) ty tr = true ->
      exists b, _check_conditions event_data (tr_conditions tr) = Ok b) ->
   exists rules,
     evaluate_triggers event_data c = (c, Ok rules) /\
     rules = filter (fun tr => candidate (clock c) ty tr && passes event_data tr)
                    (ops_trigger_rules (visible c)) /\
     forall tr, In tr rules <->
                In tr (ops_trigger_rules (visible c)) /\
                fires event_data (clock c) ty tr) /\
  (dict_get event_data "event_type" = Some (PStr ty) ->
   (exists tr e, In tr (ops_trigger_rules (visible c)) /\
      candidate (clock c) ty tr = true /\
      _check_conditions event_data (tr_conditions tr) = Raise e) ->
   exists e, evaluate_triggers event_data c = (c, Raise e)) /\
  (dict_get event_data "event_type" = None ->
   evaluate_triggers event_data c = (c, Ok [])).
Proof.
  split; [ | split ].
  - intros Hty Hall. rewrite (evaluate_triggers_run _ _ _ Hty).
    rewrite matching_all_evaluate.
    2:{ intros tr Hin. apply filter_In in Hin. destruct Hin as (Hin & Hc). auto. }
    eexists. split; [ reflexivity | ].
    assert (Hfilter : forall l : list trigger_row,
      filter (passes event_data) (filter (candidate (clock c) ty) l) =
      filter (fun tr => candidate (clock c) ty tr && passes event_data tr) l).
    { induction l as [ | tr l IH ]; simpl; [ reflexivity | ].
      destruct (candidate (clock c) ty tr); simpl; [ | exact IH ].
      destruct (passes event_data tr); now rewrite IH. }
    split; [ apply Hfilter | ].
    intros tr. rewrite Hfilter, filter_In, andb_true_iff, candidate_iff.
    unfold fires, passes.
    destruct (_check_conditions event_data (tr_conditions tr)) as [ [ | ] | e ];
      intuition congruence.
  - intros Hty (tr & e & Hin & Hc & He). rewrite (evaluate_triggers_run _ _ _ Hty).
    destruct (matching_one_raises event_data
                (filter (candidate (clock c) ty) (ops_trigger_rules (visible c))))
      as (e' & ->); [ | eauto ].
    exists tr, e. split; [ apply filter_In; auto | exact He ].
  - intros Hnone.
    unfold evaluate_triggers, select_triggers, bind, sql_now, sql_query, lift, ret.
    rewrite Hnone. reflexivity.
Qed.

(** C6, as stated, fails: the first rule is enabled, listens for "tick",
    has never fired and its (empty) condition tree matches, yet the
    registry returns nothing, because the second rule compares the
    numeric price with a string and raises. *)
Lemma unorderable_rule_silences_registry :
  let r1 := mk_trigger 1%N true "tick" (PDict []) 5%Z None in
  let r2 := mk_trigger 2%N true "tick"
              (PDict [("price", PDict [("$gt", PStr "high")])]) 5%Z None in
  let c := mk_conn (mk_tables [] [] [] [r1; r2]) None 3%N 1000%Z None in
  let event_data := [("event_type", PStr "tick"); ("price", PNum 100)] in
  fires event_data (clock c) "tick" r1 /\
  evaluate_triggers event_data c = (c, Raise TypeError).
Proof.
  cbv zeta. split; [ | reflexivity ].
  repeat split. now left.
Qed.

(** Three rules for "tick": one ready and matching, one fired two minutes
    ago with a five-minute cooldown, one ready whose condition fails. *)
Lemma evaluate_triggers_exact_witness :
  let ready := mk_trigger 1%N true "tick"
                 (PDict [("price", PDict [("$gt", PNum 50)])]) 5%Z None in
  let cooling := mk_trigger 2%N true "tick" (PDict [])
                   5%Z (Some (1000 * minute - 2 * minute)%Z) in
  let unmet := mk_trigger 3%N true "tick"
                 (PDict [("price", PDict [("$lt", PNum 50)])]) 5%Z None in
  let c := mk_conn (mk_tables [] [] [] [ready; cooling; unmet]) None 4%N
                   (1000 * minute)%Z None in
  let event_data := [("event_type", PStr "tick"); ("price", PNum 100)] in
  exists rules,
    evaluate_triggers event_data c = (c, Ok rules) /\
    rules = [ready] /\
    forall tr, In tr rules <->
               In tr (ops_trigger_rules (visible c)) /\
               fires event_data (clock c) "tick" tr.
Proof.
  cbv zeta.
  match goal with
  | |- context [evaluate_triggers ?ev ?c] =>
      destruct (proj1 (evaluate_triggers_exact c ev "tick") eq_refl)
        as (rules & Hrun & Hrules & Hiff)
  end.
  - intros tr [<- | [<- | [<- | []]]] _; eexists; reflexivity.
  - exists rules. split; [ exact Hrun | ]. split; [ | exact Hiff ].
    rewrite Hrules. reflexivity.
Defined.

(* ===================================================================== *)
(** * The condition checker: further properties *)
(* ===================================================================== *)

(** The outer loop over a concatenation: the second part is looked at
    only when the first part passed. *)
Lemma check_items_app (event_data before after : dict) :
  check_items event_data (before ++ after) =
  (let? passed := check_items event_data before in
   if passed then check_items event_data after else Ok false).
Proof.
  induction before as [ | [key condition] rest IH ]; simpl; [ reflexivity | ].
  destruct (dict_get event_data key) as [ev | ]; [ | exact IH ].
  destruct condition as [ | b | q | s | l | ops ];
    try (destruct (py_ne ev _); [ reflexivity | exact IH ]).
  destruct (check_operators ev ops) as [ [ | ] | e ]; simpl;
    [ exact IH | reflexivity | reflexivity ].
Qed.

(** Two entries the loop treats alike can stand for one another
    anywhere in a tree. *)
Lemma check_items_replace (event_data before after : dict) (x y : string * pyval) :
  check_items event_data [x] = check_items event_data [y] ->
  check_items event_data (before ++ x :: after) =
  check_items event_data (before ++ y :: after).
Proof.
  intros Hxy.
  change (x :: after) with ([x] ++ after). change (y :: after) with ([y] ++ after).
  rewrite !check_items_app, Hxy. reflexivity.
Qed.

(** An entry that passes on its own can be left out anywhere in a tree. *)
Lemma check_items_drop (event_data before after : dict) (x : string * pyval) :
  check_items event_data [x] = Ok true ->
  check_items event_data (before ++ x :: after) =
  check_items event_data (before ++ after).
Proof.
  intros Hx. change (x :: after) with ([x] ++ after).
  rewrite !check_items_app, Hx. reflexivity.
Qed.

Lemma check_operators_unknown (ev : pyval) (ops : dict) :
  (forall op value, In (op, value) ops -> ~ known_operator op) ->
  check_operators ev ops = Ok true.
Proof.
  induction ops as [ | [op value] rest IH ]; intros Hun; simpl; [ reflexivity | ].
  assert (Hop : ~ known_operator op) by (apply (Hun op value); now left).
  unfold known_operator in Hop. unfold op_rejects.
  destruct (String.eqb_spec op "$gt"); [ tauto | ].
  destruct (String.eqb_spec op "$lt"); [ tauto | ].
  destruct (String.eqb_spec op "$eq"); [ tauto | ].
  simpl. apply IH. intros op' value' Hin. apply (Hun op' value'). now right.
Qed.

(** X1.  Operator names other than [$gt], [$lt] and [$eq] are ignored: a
    sub-mapping made only of such names (["$gte"], ["$in"], a nested
    field name, ...) asks nothing of the event, and the checker answers
    as if the key were not in the tree, whatever value the event has. *)
Theorem unknown_operators_ask_nothing (event_data before after ops : dict)
    (key : string) :
  (forall op value, In (op, value) ops -> ~ known_operator op) ->
  _check_conditions event_data (PDict (before ++ (key, PDict ops) :: after))
  = _check_conditions event_data (PDict (before ++ after)).
Proof.
  intros Hun. unfold _check_conditions. simpl.
  apply check_items_drop. simpl.
  destruct (dict_get event_data key) as [ev | ]; [ | reflexivity ].
  now rewrite (check_operators_unknown ev ops Hun).
Qed.

(** A price of 10 passes a rule that asks for ["$gte": 50]. *)
Lemma unknown_operators_ask_nothing_witness :
  (forall op value, In (op, value) [("$gte", PNum 50)] -> ~ known_operator op) /\
  _check_conditions [("price", PNum 10)]
    (PDict [("price", PDict [("$gte", PNum 50)])]) = Ok true.
Proof.
  assert (H : forall op value, In (op, value) [("$gte", PNum 50)] -> ~ known_operator op).
  { intros op value [Heq | []]. inversion Heq; subst.
    intros [H | [H | H]]; discriminate. }
  split; [ exact H | ].
  exact (eq_trans
           (unknown_operators_ask_nothing [("price", PNum 10)] [] []
              [("$gte", PNum 50)] "price" H)
           eq_refl).
Defined.

(** X2.  A plain literal is shorthand for [$eq]: for a condition value
    that is not itself a mapping, [{key: value}] and
    [{key: {"$eq": value}}] get the same answer anywhere in a tree. *)
Theorem literal_is_eq_shorthand (event_data before after : dict)
    (key : string) (value : pyval) :
  plain_literal value ->
  _check_conditions event_data
    (PDict (before ++ (key, PDict [("$eq", value)]) :: after))
  = _check_conditions event_data (PDict (before ++ (key, value) :: after)).
Proof.
  intros Hlit. unfold _check_conditions. simpl.
  apply check_items_replace. simpl.
  destruct (dict_get event_data key) as [ev | ]; [ | reflexivity ].
  unfold op_rejects. simpl.
  destruct value; try contradiction; simpl; destruct (py_ne ev _); reflexivity.
Qed.

Lemma literal_is_eq_shorthand_witness :
  plain_literal (PStr "BTC") /\
  _check_conditions [("symbol", PStr "ETH")]
    (PDict [("symbol", PDict [("$eq", PStr "BTC")])])
  = _check_conditions [("symbol", PStr "ETH")] (PDict [("symbol", PStr "BTC")]).
Proof.
  split; [ exact I | ].
  exact (literal_is_eq_shorthand [("symbol", PStr "ETH")] [] [] "symbol"
           (PStr "BTC") I).
Defined.

Lemma check_items_true_iff (event_data items : dict) :
  check_items event_data items = Ok true <-> all_hold event_data items.
Proof.
  pose proof (check_items_cases event_data items) as H.
  destruct (check_items event_data items) as [ [ | ] | e ].
  - tauto.
  - split; [ discriminate | ].
    intros Hall. exfalso. eapply all_hold_not_fails_first; eauto.
  - destruct H as (_ & Hun). split; [ discriminate | ].
    intros Hall. exfalso. eapply all_hold_not_raises_first; eauto.
Qed.

Lemma all_hold_perm (event_data items items' : dict) :
  Permutation items items' -> all_hold event_data items -> all_hold event_data items'.
Proof.
  intros Hp Hall key condition ev Hin Hget.
  apply (Hall key condition ev); [ | exact Hget ].
  eapply Permutation_in; [ symmetry; exact Hp | exact Hin ].
Qed.

(** X3.  The order of the keys of a condition tree cannot change an
    answer: two orderings of the same entries return true together, and
    whenever both return, they return the same.  (Only whether a
    [TypeError] is met before a failing entry depends on the order.) *)
Theorem key_order_cannot_change_the_answer (event_data items items' : dict) :
  Permutation items items' ->
  (_check_conditions event_data (PDict items) = Ok true <->
   _check_conditions event_data (PDict items') = Ok true) /\
  (forall b b',
     _check_conditions event_data (PDict items) = Ok b ->
     _check_conditions event_data (PDict items') = Ok b' -> b = b').
Proof.
  intros Hp. unfold _check_conditions. simpl.
  assert (Hiff : check_items event_data items = Ok true <->
                 check_items event_data items' = Ok true).
  { rewrite !check_items_true_iff. split; apply all_hold_perm;
      [ exact Hp | symmetry; exact Hp ]. }
  split; [ exact Hiff | ].
  intros [ | ] [ | ] H1 H2; try reflexivity.
  - apply Hiff in H1. congruence.
  - apply Hiff in H2. congruence.
Qed.

(** Swapping the entries of the tree of the type-error example turns the
    raise into a false, never into a true. *)
Lemma key_order_cannot_change_the_answer_witness :
  let event_data := [("a", PStr "x"); ("b", PNum 1)] in
  let ca := ("a", PDict [("$gt", PNum 1)]) in
  let cb := ("b", PDict [("$eq", PNum 2)]) in
  Permutation [ca; cb] [cb; ca] /\
  _check_conditions event_data (PDict [cb; ca]) = Ok false /\
  (_check_conditions event_data (PDict [ca; cb]) = Ok true <->
   _check_conditions event_data (PDict [cb; ca]) = Ok true).
Proof.
  cbv zeta. split; [ apply perm_swap | ]. split; [ reflexivity | ].
  exact (proj1 (key_order_cannot_change_the_answer _ _ _ (perm_swap _ _ _))).
Defined.

(* ===================================================================== *)
(** * Sessions: what one call can do *)
(* ===================================================================== *)

Lemma mark_mission_succeeded_run (mission_id : uuid) (c : conn) :
  mark_mission_succeeded mission_id c =
  (put_visible (set_missions (visible c)
     (update_where (fun m => N.eqb (m_id m) mission_id) (marked (clock c))
        (ops_missions (visible c)))) c, Ok tt).
Proof. reflexivity. Qed.

(** Every call of a session leaves the session outside a transaction,
    never lowers the key counter, and changes the tables in one of the
    five ways of [effect]. *)
Lemma run_call_effect (now : timestamp) (k : call) (c : conn) :
  txn c = None ->
  txn (run_call now k c) = None /\
  (next_uuid c <= next_uuid (run_call now k c))%N /\
  effect now c (visible (run_call now k c)).
Proof.
  intros Htxn.
  assert (Hvis : visible (at_time now c) = visible c) by reflexivity.
  assert (Hrb : forall next, (next_uuid c <= next)%N ->
            txn (rolled_back (at_time now c) next) = None /\
            (next_uuid c <= next_uuid (rolled_back (at_time now c) next))%N /\
            effect now c (visible (rolled_back (at_time now c) next))).
  { intros next Hle. split; [ reflexivity | ]. split; [ exact Hle | ].
    replace (visible (rolled_back (at_time now c) next)) with (visible c);
      [ constructor | ].
    unfold visible. simpl. now rewrite Htxn. }
  destruct k as [pid by_ | kind limit | sid who | sid rd err | ev ]; unfold run_call.
  - rewrite create_mission_from_proposal_run. rewrite Hvis.
    destruct (find _ _) as [p | ] eqn:Hfind.
    2:{ cbn [fst]. apply Hrb. simpl. lia. }
    destruct (py_iter (p_proposed_steps p)) as [templates | e].
    2:{ cbn [fst]. apply Hrb. simpl. lia. }
    destruct (built_steps _ _ _ _ templates) as [ [rows next'] r ] eqn:Hb.
    destruct (built_steps_keys _ _ _ _ _ _ _ _ Hb) as (Hle & Hrows). simpl in Hle.
    destruct r as [ [] | e ]; cbn [fst].
    + split; [ reflexivity | ]. split; [ simpl; lia | ].
      unfold visible at 1. cbn [txn committed].
      apply effect_compile; [ exact Hfind | ].
      intros s Hs. destruct (Hrows s Hs) as (Hk & Hm). simpl in Hk, Hm.
      split; [ lia | ]. split; [ exact Hm | ].
      revert Hs. clear -Hb. revert rows next' Hb.
      generalize (N.succ (next_uuid (at_time now c))).
      induction templates as [ | tpl rest IH ]; intros next rows next' Hb Hs.
      * simpl in Hb. inversion Hb; subst. destruct Hs.
      * destruct tpl; try (simpl in Hb; inversion Hb; subst; now destruct Hs).
        cbn [built_steps] in Hb.
        destruct (built_steps _ (N.succ next) _ _ rest) as [ [rows0 next0] r0 ] eqn:Hr.
        inversion Hb; subst. destruct Hs as [<- | Hs]; [ reflexivity | ].
        eapply IH; eauto.
    + apply Hrb. lia.
  - rewrite get_queued_steps_run. cbn [fst].
    split; [ exact Htxn | ]. split; [ simpl; lia | ]. rewrite Hvis. constructor.
  - destruct (claim_step_session sid who (at_time now c)) as (Hn & Ht).
    split; [ auto | ]. split; [ rewrite Hn; simpl; lia | ].
    rewrite claim_step_run.
    destruct (filter (is_queued sid) (steps_of (at_time now c))); cbn [fst].
    + rewrite Hvis. constructor.
    + rewrite visible_put_visible. exact (effect_claim now c sid who).
  - destruct (complete_step_session sid rd err (at_time now c)) as (Hn & Ht).
    split; [ auto | ]. split; [ rewrite Hn; simpl; lia | ].
    clear Hn Ht Hrb. destruct c as [cm tx n k0 ttl]. simpl in Htxn. subst tx.
    rewrite complete_step_run.
    set (c := mk_conn cm None n k0 ttl) in *.
    destruct (filter (is_running sid) (steps_of (at_time now c))) as [ | s hit ] eqn:Hf.
    + cbn [fst]. rewrite Hvis. constructor.
    + cbv zeta.
      destruct (Nat.eqb _ 0) eqn:Hp; cbn [fst].
      * rewrite mark_mission_succeeded_run. cbn [fst].
        rewrite visible_put_visible. unfold after_completion.
        rewrite visible_put_visible.
        assert (Hs : In s (filter (is_running sid) (steps_of (at_time now c))))
          by (rewrite Hf; now left).
        apply filter_In in Hs. destruct Hs as (Hin & Hrun).
        apply Nat.eqb_eq in Hp. apply length_zero_iff_nil in Hp.
        rewrite steps_of_after_completion in Hp.
        exact (effect_complete_last now c sid rd err s Hin Hrun Hp).
      * unfold after_completion. rewrite visible_put_visible.
        exact (effect_complete now c sid rd err).
  - rewrite evaluate_triggers_conn.
    split; [ exact Htxn | ]. split; [ simpl; lia | ]. rewrite Hvis. constructor.
Qed.

(** An invariant of the visible tables and the key counter that every
    effect keeps is kept by every session. *)
Lemma session_invariant (Inv : tables -> uuid -> Prop) :
  (forall now c t' next',
     txn c = None -> Inv (visible c) (next_uuid c) ->
     effect now c t' -> (next_uuid c <= next')%N -> Inv t' next') ->
  forall calls c,
    txn c = None -> Inv (visible c) (next_uuid c) ->
    txn (run_calls calls c) = None /\
    Inv (visible (run_calls calls c)) (next_uuid (run_calls calls c)).
Proof.
  intros Hstep. induction calls as [ | [now k] rest IH ]; intros c Htxn Hinv; simpl.
  - auto.
  - destruct (run_call_effect now k c Htxn) as (Ht & Hn & He).
    apply IH; [ exact Ht | ]. exact (Hstep now c _ _ Htxn Hinv He Hn).
Qed.

(** ** Growth of a table *)

Lemma grows_refl {R} (evolves : R -> R -> Prop) (rows : list R) :
  (forall r, evolves r r) -> grows evolves rows rows.
Proof.
  intros Hrefl. exists rows, []. split; [ now rewrite app_nil_r | ].
  induction rows; constructor; auto.
Qed.

Lemma grows_trans {R} (evolves : R -> R -> Prop) (a b c : list R) :
  (forall x y z, evolves x y -> evolves y z -> evolves x z) ->
  grows evolves a b -> grows evolves b c -> grows evolves a c.
Proof.
  intros Htrans (k1 & a1 & -> & H1) (k2 & a2 & -> & H2).
  apply Forall2_app_inv_l in H2. destruct H2 as (k & a1' & Hk & Ha & ->).
  exists k, (a1' ++ a2). split; [ now rewrite app_assoc | ].
  clear Ha. revert k Hk. induction H1; intros k Hk; inversion Hk; subst; constructor; eauto.
Qed.

Lemma grows_update_where {R} (evolves : R -> R -> Prop) (where_ : R -> bool)
    (set : R -> R) (rows : list R) :
  (forall r, evolves r r) ->
  (forall r, In r rows -> where_ r = true -> evolves r (set r)) ->
  grows evolves rows (update_where where_ set rows).
Proof.
  intros Hrefl Hset. exists (update_where where_ set rows), [].
  split; [ now rewrite app_nil_r | ].
  induction rows as [ | r rows IH ]; simpl; constructor.
  - destruct (where_ r) eqn:Hw; [ apply Hset; [ now left | exact Hw ] | apply Hrefl ].
  - apply IH. intros r' Hin. apply Hset. now right.
Qed.

Lemma grows_app {R} (evolves : R -> R -> Prop) (rows added : list R) :
  (forall r, evolves r r) -> grows evolves rows (rows ++ added).
Proof.
  intros Hrefl. exists rows, added. split; [ reflexivity | ].
  induction rows; constructor; auto.
Qed.

Lemma grows_In {R} (evolves : R -> R -> Prop) (before after : list R) (r : R) :
  grows evolves before after -> In r before -> exists r', In r' after /\ evolves r r'.
Proof.
  intros (kept & added & -> & HF) Hin.
  induction HF as [ | x y xs ys Hxy HF IH ]; [ destruct Hin | ].
  destruct Hin as [<- | Hin].
  - exists y. split; [ now left | exact Hxy ].
  - destruct (IH Hin) as (r' & Hr' & He). exists r'. split; [ now right | exact He ].
Qed.

(** ** Steps *)

Lemma step_evolves_refl (s : step_row) : step_evolves s s.
Proof.
  unfold step_evolves. repeat split.
  destruct (s_status s) eqn:Hs; auto. repeat split. congruence.
Qed.

Lemma step_evolves_trans (a b c : step_row) :
  step_evolves a b -> step_evolves b c -> step_evolves a c.
Proof.
  unfold step_evolves.
  intros (A1 & A2 & A3 & A4 & A5 & A6 & A7) (B1 & B2 & B3 & B4 & B5 & B6 & B7).
  repeat split; try congruence.
  revert A7. destruct (s_status a) eqn:Ha; intros A7; [ exact I | | | ].
  - destruct A7 as (Aq & Aa & As). revert B7.
    destruct (s_status b) eqn:Hb; intros B7; [ congruence | | | ].
    + destruct B7 as (Bq & Ba & Bs). repeat split; congruence.
    + subst c. rewrite Hb. repeat split; congruence.
    + subst c. rewrite Hb. repeat split; congruence.
  - subst b. rewrite Ha in B7. exact B7.
  - subst b. rewrite Ha in B7. exact B7.
Qed.

Lemma is_queued_status (step_id : uuid) (s : step_row) :
  is_queued step_id s = true -> s_id s = step_id /\ s_status s = queued.
Proof.
  unfold is_queued. rewrite andb_true_iff, N.eqb_eq, step_status_eqb_eq. tauto.
Qed.

Lemma is_running_status (step_id : uuid) (s : step_row) :
  is_running step_id s = true -> s_id s = step_id /\ s_status s = running.
Proof.
  unfold is_running. rewrite andb_true_iff, N.eqb_eq, step_status_eqb_eq. tauto.
Qed.

Lemma effect_steps_grow (now : timestamp) (c : conn) (t' : tables) :
  effect now c t' ->
  grows step_evolves (steps_of c) (ops_mission_steps t').
Proof.
  assert (Hclaim : forall sid who,
    grows step_evolves (steps_of c)
      (update_where (is_queued sid) (claimed who now) (steps_of c))).
  { intros sid who. apply grows_update_where; [ apply step_evolves_refl | ].
    intros s _ Hq. apply is_queued_status in Hq. destruct Hq as (_ & Hq).
    unfold step_evolves, claimed. simpl. rewrite Hq. repeat split. }
  assert (Hdone : forall sid rd err,
    grows step_evolves (steps_of c)
      (update_where (is_running sid)
         (completed (status_of_error err) (json_of_result rd) err now) (steps_of c))).
  { intros sid rd err. apply grows_update_where; [ apply step_evolves_refl | ].
    intros s _ Hr. apply is_running_status in Hr. destruct Hr as (_ & Hr).
    unfold step_evolves, completed. simpl. rewrite Hr. repeat split.
    apply status_of_error_not_queued. }
  intros [ | sid who | sid rd err | sid rd err s Hin Hrun steps' Hp
           | pid by_ p rows Hfind Hrows ]; simpl.
  - apply grows_refl, step_evolves_refl.
  - apply Hclaim.
  - apply Hdone.
  - apply Hdone.
  - apply grows_app, step_evolves_refl.
Qed.

(** X4.  Step rows only move forward.  After any session, every step that
    was in the table is still there, at the same position, describing
    the same work (id, mission, kind, payload, deadline, creation time);
    a step that was running is not queued again and keeps its assignee
    and start time; a step that had succeeded or failed is unchanged in
    every column.  No call deletes or reorders steps. *)
Theorem steps_only_move_forward (calls : list (timestamp * call)) (c : conn) :
  txn c = None ->
  grows step_evolves (steps_of c) (steps_of (run_calls calls c)).
Proof.
  intros Htxn.
  apply (session_invariant
           (fun t _ => grows step_evolves (steps_of c) (ops_mission_steps t)));
    [ | exact Htxn | apply grows_refl, step_evolves_refl ].
  intros now c0 t' next' _ Hinv He _.
  eapply grows_trans; [ apply step_evolves_trans | exact Hinv | ].
  exact (effect_steps_grow now c0 t' He).
Qed.

(** ** Missions *)

Lemma mission_evolves_refl (m : mission_row) : mission_evolves m m.
Proof. now left. Qed.

Lemma mission_evolves_trans (a b c : mission_row) :
  mission_evolves a b -> mission_evolves b c -> mission_evolves a c.
Proof.
  intros [-> | (n1 & ->)] [-> | (n2 & ->)].
  - now left.
  - right. now exists n2.
  - right. now exists n1.
  - right. exists n2. reflexivity.
Qed.

Lemma effect_missions_grow (now : timestamp) (c : conn) (t' : tables) :
  effect now c t' ->
  grows mission_evolves (missions_of c) (ops_missions t') /\
  ((forall m, In m (missions_of c) -> m_status m <> mission_failed) ->
   forall m, In m (ops_missions t') -> m_status m <> mission_failed).
Proof.
  intros [ | sid who | sid rd err | sid rd err s Hin Hrun steps' Hp
           | pid by_ p rows Hfind Hrows ]; simpl;
    try (split; [ apply grows_refl, mission_evolves_refl | auto ]).
  - split.
    + apply grows_update_where; [ apply mission_evolves_refl | ].
      intros m _ _. right. eauto.
    + intros Hok m Hm. apply In_update_where in Hm. destruct Hm as (m0 & Hin0 & ->).
      destruct (N.eqb _ _); [ discriminate | now apply Hok ].
  - split.
    + apply grows_app, mission_evolves_refl.
    + intros Hok m Hm. apply in_app_or in Hm. destruct Hm as [Hm | [<- | []]];
        [ now apply Hok | discriminate ].
Qed.

(** X5.  No session fails a mission.  After any session every mission row
    that was in the table is still there, at the same position, either
    unchanged or marked succeeded with a completion time; and if no
    mission was failed before, none is failed after, whatever errors the
    completions carried. *)
Theorem no_session_fails_a_mission (calls : list (timestamp * call)) (c : conn) :
  txn c = None ->
  grows mission_evolves (missions_of c) (missions_of (run_calls calls c)) /\
  ((forall m, In m (missions_of c) -> m_status m <> mission_failed) ->
   forall m, In m (missions_of (run_calls calls c)) -> m_status m <> mission_failed).
Proof.
  intros Htxn. split.
  - apply (session_invariant
             (fun t _ => grows mission_evolves (missions_of c) (ops_missions t)));
      [ | exact Htxn | apply grows_refl, mission_evolves_refl ].
    intros now c0 t' next' _ Hinv He _.
    eapply grows_trans; [ apply mission_evolves_trans | exact Hinv | ].
    exact (proj1 (effect_missions_grow now c0 t' He)).
  - intros Hok.
    apply (session_invariant
             (fun t _ => forall m, In m (ops_missions t) -> m_status m <> mission_failed));
      [ | exact Htxn | exact Hok ].
    intros now c0 t' next' _ Hinv He _.
    exact (proj2 (effect_missions_grow now c0 t' He) Hinv).
Qed.

(** A session that lists, claims, completes with an error, compiles,
    completes and evaluates. *)
Lemma steps_only_move_forward_witness :
  txn demo_conn = None /\
  grows step_evolves (steps_of demo_conn) (steps_of (run_calls demo_calls demo_conn)) /\
  map s_status (steps_of (run_calls demo_calls demo_conn))
    = [succeeded; failed; queued; queued].
Proof.
  split; [ reflexivity | ].
  split; [ exact (steps_only_move_forward demo_calls demo_conn eq_refl) | reflexivity ].
Defined.

Lemma no_session_fails_a_mission_witness :
  txn demo_conn = None /\
  (forall m, In m (missions_of demo_conn) -> m_status m <> mission_failed) /\
  (forall m, In m (missions_of (run_calls demo_calls demo_conn)) ->
             m_status m <> mission_failed) /\
  map m_status (missions_of (run_calls demo_calls demo_conn))
    = [mission_succeeded; mission_running].
Proof.
  assert (H : forall m, In m (missions_of demo_conn) -> m_status m <> mission_failed).
  { intros m [<- | []]. discriminate. }
  split; [ reflexivity | ]. split; [ exact H | ].
  split; [ | reflexivity ].
  exact (proj2 (no_session_fails_a_mission demo_calls demo_conn eq_refl) H).
Defined.

(** ** Trigger rules *)

Lemma effect_triggers_same (now : timestamp) (c : conn) (t' : tables) :
  effect now c t' -> ops_trigger_rules t' = ops_trigger_rules (visible c).
Proof. intros []; reflexivity. Qed.

Lemma session_triggers_same (calls : list (timestamp * call)) (c : conn) :
  txn c = None ->
  ops_trigger_rules (visible (run_calls calls c)) = ops_trigger_rules (visible c).
Proof.
  intros Htxn.
  apply (session_invariant
           (fun t _ => ops_trigger_rules t = ops_trigger_rules (visible c)));
    [ | exact Htxn | reflexivity ].
  intros now c0 t' next' _ Hinv He _.
  now rewrite (effect_triggers_same now c0 t' He).
Qed.

Lemma matching_returns (event_data : dict) (triggers rules : list trigger_row) :
  matching event_data triggers = Ok rules ->
  rules = filter (passes event_data) triggers.
Proof.
  revert rules. induction triggers as [ | tr rest IH ]; intros rules; simpl.
  - congruence.
  - unfold passes at 1.
    destruct (_check_conditions event_data (tr_conditions tr)) as [b | e]; simpl;
      [ | discriminate ].
    destruct (matching event_data rest) as [found | e]; simpl; [ | discriminate ].
    intros H. inversion H; subst. rewrite (IH found eq_refl).
    destruct b; reflexivity.
Qed.

Lemma off_cooldown_later (now later : timestamp) (tr : trigger_row) :
  (now <= later)%Z -> off_cooldown now tr = true -> off_cooldown later tr = true.
Proof.
  unfold off_cooldown. destruct (tr_last_fired_at tr); [ | auto ].
  rewrite !Z.ltb_lt. lia.
Qed.

(** X6.  The module never starts a cooldown.  No call of a session
    writes [ops_trigger_rules], so [last_fired_at] stays as it was; and a
    rule that was returned for an event is returned again for the same
    event after any session and at any later time, whenever that later
    evaluation returns at all. *)
Theorem a_rule_that_fired_fires_again (calls : list (timestamp * call)) (c : conn)
    (event_data : dict) (later : timestamp) :
  txn c = None -> (clock c <= later)%Z ->
  let c2 := at_time later (run_calls calls c) in
  ops_trigger_rules (visible c2) = ops_trigger_rules (visible c) /\
  forall rules rules2,
    evaluate_triggers event_data c = (c, Ok rules) ->
    evaluate_triggers event_data c2 = (c2, Ok rules2) ->
    incl rules rules2.
Proof.
  intros Htxn Hlater. cbv zeta.
  assert (Hsame : ops_trigger_rules (visible (at_time later (run_calls calls c)))
                  = ops_trigger_rules (visible c)).
  { change (visible (at_time later (run_calls calls c)))
      with (visible (run_calls calls c)).
    now apply session_triggers_same. }
  split; [ exact Hsame | ].
  intros rules rules2 H1 H2.
  destruct (dict_get event_data "event_type") as [ [ | b | q | ty | l | d ] | ] eqn:Hty;
    try (unfold evaluate_triggers, select_triggers, bind, sql_now, sql_query, lift,
           ret, raise in H1; rewrite Hty in H1; simpl in H1;
         inversion H1; subst; intros tr []).
  rewrite (evaluate_triggers_run _ _ _ Hty) in H1.
  rewrite (evaluate_triggers_run _ _ _ Hty) in H2.
  inversion H1 as [Hm1]. inversion H2 as [Hm2].
  apply matching_returns in Hm1. apply matching_returns in Hm2.
  rewrite Hsame in Hm2. subst rules rules2.
  intros tr Hin. apply filter_In in Hin. destruct Hin as (Hin & Hp).
  apply filter_In in Hin. destruct Hin as (Hin & Hc).
  apply filter_In. split; [ | exact Hp ].
  apply filter_In. split; [ exact Hin | ].
  unfold candidate in *. apply andb_true_iff in Hc. destruct Hc as (Hc & He).
  apply andb_true_iff in Hc. destruct Hc as (Hen & Hoff).
  rewrite Hen, He. simpl.
  rewrite (off_cooldown_later (clock c) later tr Hlater Hoff). reflexivity.
Qed.

(** The demo rule fires before the session and an hour after it. *)
Lemma a_rule_that_fired_fires_again_witness :
  let event_data := [("event_type", PStr "tick"); ("price", PNum 100)] in
  let c2 := at_time 3700%Z (run_calls demo_calls demo_conn) in
  txn demo_conn = None /\ (clock demo_conn <= 3700)%Z /\
  evaluate_triggers event_data demo_conn = (demo_conn, Ok [demo_rule]) /\
  evaluate_triggers event_data c2 = (c2, Ok [demo_rule]) /\
  incl [demo_rule] [demo_rule].
Proof.
  cbv zeta.
  assert (Hle : (clock demo_conn <= 3700)%Z) by (vm_compute; discriminate).
  assert (H1 : evaluate_triggers [("event_type", PStr "tick"); ("price", PNum 100)]
                 demo_conn = (demo_conn, Ok [demo_rule]))
    by (vm_compute; reflexivity).
  assert (H2 : evaluate_triggers [("event_type", PStr "tick"); ("price", PNum 100)]
                 (at_time 3700%Z (run_calls demo_calls demo_conn))
               = (at_time 3700%Z (run_calls demo_calls demo_conn), Ok [demo_rule]))
    by (vm_compute; reflexivity).
  split; [ reflexivity | ]. split; [ exact Hle | ].
  split; [ exact H1 | ]. split; [ exact H2 | ].
  exact (proj2 (a_rule_that_fired_fires_again demo_calls demo_conn
                  [("event_type", PStr "tick"); ("price", PNum 100)]
                  3700%Z eq_refl Hle) _ _ H1 H2).
Defined.

(** ** Proposals *)

Lemma NoDup_map_same {A B} (f : A -> B) (l : list A) (x y : A) :
  NoDup (map f l) -> In x l -> In y l -> f x = f y -> x = y.
Proof.
  induction l as [ | a l IH ]; simpl; intros Hnd Hx Hy Hf; [ destruct Hx | ].
  inversion Hnd as [ | ? ? Hnotin Hnd' ]; subst.
  destruct Hx as [<- | Hx], Hy as [<- | Hy]; auto.
  - exfalso. apply Hnotin. rewrite Hf. now apply in_map.
  - exfalso. apply Hnotin. rewrite <- Hf. now apply in_map.
Qed.

Lemma Forall2_trans {A} (R : A -> A -> Prop) (a b c : list A) :
  (forall x y z, R x y -> R y z -> R x z) ->
  Forall2 R a b -> Forall2 R b c -> Forall2 R a c.
Proof.
  intros Htrans H1. revert c.
  induction H1; intros c H2; inversion H2; subst; constructor; eauto.
Qed.

Lemma proposal_evolves_trans (a b c : proposal_row) :
  proposal_evolves a b -> proposal_evolves b c -> proposal_evolves a c.
Proof.
  intros [-> | (Ha & n1 & ->)] [-> | (Hb & n2 & ->)].
  - now left.
  - right. eauto.
  - right. eauto.
  - right. split; [ exact Ha | ]. exists n2. reflexivity.
Qed.

Lemma proposal_evolves_same (p p' : proposal_row) :
  proposal_evolves p p' -> p_id p' = p_id p /\ p_status p' = p_status p.
Proof.
  intros [-> | (Ha & n & ->)]; [ auto | ]. simpl. auto.
Qed.

Lemma Forall2_update_where_in {R} (P : R -> R -> Prop) (where_ : R -> bool)
    (set : R -> R) (rows : list R) :
  (forall r, In r rows -> P r (if where_ r then set r else r)) ->
  Forall2 P rows (update_where where_ set rows).
Proof.
  induction rows as [ | r rows IH ]; intros H; simpl; constructor.
  - apply H. now left.
  - apply IH. intros r' Hin. apply H. now right.
Qed.

Lemma effect_proposals_evolve (now : timestamp) (c : conn) (t' : tables) :
  NoDup (map p_id (ops_trading_proposals (visible c))) ->
  effect now c t' ->
  Forall2 proposal_evolves (ops_trading_proposals (visible c))
          (ops_trading_proposals t').
Proof.
  assert (Hrefl : forall l : list proposal_row, Forall2 proposal_evolves l l).
  { induction l; constructor; auto. now left. }
  intros Hnd [ | sid who | sid rd err | sid rd err s Hin Hrun steps' Hp
               | pid by_ p rows Hfind Hrows ]; simpl; try apply Hrefl.
  apply find_some in Hfind. destruct Hfind as (Hp & Hacc).
  unfold accepted_with_id in Hacc. apply andb_true_iff in Hacc.
  destruct Hacc as (Hid & Hst). apply N.eqb_eq in Hid.
  assert (Hstatus : p_status p = accepted)
    by (destruct (p_status p); simpl in Hst; congruence).
  apply Forall2_update_where_in. intros q Hq.
  destruct (N.eqb (p_id q) pid) eqn:Heq; [ | now left ].
  apply N.eqb_eq in Heq.
  assert (q = p) by (apply (NoDup_map_same p_id _ q p Hnd Hq Hp); congruence).
  subst q. right. split; [ exact Hstatus | eauto ].
Qed.

(** X7.  No session accepts or rejects a proposal.  When proposal ids are
    unique, after any session the proposals table has the same rows in
    the same places, each unchanged except that an already accepted
    proposal may carry a newer acceptance time; in particular every
    status is what it was, so the [UPDATE ... SET status = 'accepted'] of
    the compiler never changes a status. *)
Theorem no_session_changes_a_proposal_status (calls : list (timestamp * call))
    (c : conn) :
  txn c = None ->
  NoDup (map p_id (ops_trading_proposals (visible c))) ->
  Forall2 proposal_evolves (ops_trading_proposals (visible c))
          (ops_trading_proposals (visible (run_calls calls c))) /\
  map p_status (ops_trading_proposals (visible (run_calls calls c)))
  = map p_status (ops_trading_proposals (visible c)).
Proof.
  intros Htxn Hnd.
  assert (Hids : forall l l' : list proposal_row,
            Forall2 proposal_evolves l l' ->
            map p_id l' = map p_id l /\ map p_status l' = map p_status l).
  { induction 1 as [ | p p' l l' Hp _ (IH1 & IH2) ]; simpl; [ auto | ].
    destruct (proposal_evolves_same p p' Hp) as (-> & ->). now rewrite IH1, IH2. }
  assert (Hinv : Forall2 proposal_evolves (ops_trading_proposals (visible c))
                   (ops_trading_proposals (visible (run_calls calls c)))).
  { apply (session_invariant
             (fun t _ => Forall2 proposal_evolves (ops_trading_proposals (visible c))
                                 (ops_trading_proposals t)));
      [ | exact Htxn | ].
    - intros now c0 t' next' _ Hinv He _.
      eapply Forall2_trans; [ apply proposal_evolves_trans | exact Hinv | ].
      apply (effect_proposals_evolve now c0 t'); [ | exact He ].
      destruct (Hids _ _ Hinv) as (-> & _). exact Hnd.
    - clear. induction (ops_trading_proposals (visible c)); constructor; auto.
      now left. }
  split; [ exact Hinv | ]. apply (Hids _ _ Hinv).
Qed.

(** The demo session compiles the accepted proposal; it stays accepted,
    only its acceptance time moves to the time of the compilation. *)
Lemma no_session_changes_a_proposal_status_witness :
  txn demo_conn = None /\
  NoDup (map p_id (ops_trading_proposals (visible demo_conn))) /\
  map p_status (ops_trading_proposals (visible (run_calls demo_calls demo_conn)))
    = [accepted] /\
  map p_accepted_at (ops_trading_proposals (visible (run_calls demo_calls demo_conn)))
    = [Some 140%Z].
Proof.
  assert (Hnd : NoDup (map p_id (ops_trading_proposals (visible demo_conn)))).
  { simpl. constructor; [ intros [] | constructor ]. }
  split; [ reflexivity | ]. split; [ exact Hnd | ]. split; [ | reflexivity ].
  exact (proj2 (no_session_changes_a_proposal_status demo_calls demo_conn eq_refl Hnd)).
Defined.

(* ===================================================================== *)
(** * Listing and claiming together *)
(* ===================================================================== *)

(** After a claim that returned true, no row of that id is queued at any
    later point of the session. *)
Lemma claimed_stays_claimed (c : conn) (step_id : uuid) (assigned_to : string)
    (calls : list (timestamp * call)) :
  snd (claim_step step_id assigned_to c) = Ok true ->
  txn c = None -> keys_issued c ->
  never_queued step_id (run_calls calls (fst (claim_step step_id assigned_to c))).
Proof.
  intros Hok Htxn Hkeys.
  assert (Hkey : (step_id < next_uuid c)%N).
  { rewrite claim_step_run in Hok.
    destruct (filter (is_queued step_id) (steps_of c)) as [ | s hit ] eqn:Hf;
      [ discriminate | ].
    assert (Hs : In s (filter (is_queued step_id) (steps_of c)))
      by (rewrite Hf; now left).
    apply filter_In in Hs. destruct Hs as (Hin & Hq).
    apply is_queued_status in Hq. destruct Hq as (<- & _). now apply Hkeys. }
  destruct (claim_step_session step_id assigned_to c) as (Hn & Ht).
  apply run_calls_never_queued; [ auto | rewrite Hn; exact Hkey | ].
  intros s Hs. rewrite steps_of_claim_step in Hs.
  apply In_update_where in Hs. destruct Hs as (s0 & Hin & ->).
  destruct (is_queued step_id s0) eqn:Hq;
    [ apply (claimed_not_queued step_id) | exact Hq ].
Qed.

Lemma listed_is_claimable (kind : option string) (limit : Z) (c : conn)
    (rows : list queued_row) (q : queued_row) :
  get_queued_steps kind limit c = (c, Ok rows) -> In q rows ->
  In q (join_missions (claimable (clock c) kind) (visible c)).
Proof.
  rewrite get_queued_steps_run. destruct (limit <? 0)%Z; [ discriminate | ].
  intros H Hq. inversion H; subst. apply firstn_incl in Hq.
  now apply (Permutation_in _ (order_by_perm _ _)) in Hq.
Qed.

Lemma claimable_queued (now : timestamp) (kind : option string) (s : step_row) :
  claimable now kind s = true ->
  s_status s = queued /\ deadline_ahead now s = true.
Proof.
  unfold claimable. rewrite !andb_true_iff, step_status_eqb_eq. tauto.
Qed.

(** X8.  A claimed step is never offered again.  Once [claim_step] has
    returned true for a step, no later [get_queued_steps], after any
    further calls of the session and for any kind and limit, returns a
    row of that step. *)
Theorem claimed_step_is_never_listed_again (c : conn) (step_id : uuid)
    (assigned_to : string) (calls : list (timestamp * call)) (now : timestamp)
    (kind : option string) (limit : Z) (rows : list queued_row) :
  snd (claim_step step_id assigned_to c) = Ok true ->
  txn c = None -> keys_issued c ->
  let c2 := at_time now (run_calls calls (fst (claim_step step_id assigned_to c))) in
  get_queued_steps kind limit c2 = (c2, Ok rows) ->
  forall q, In q rows -> s_id (q_step q) <> step_id.
Proof.
  intros Hok Htxn Hkeys c2 Hlist q Hq Hid.
  pose proof (claimed_stays_claimed c step_id assigned_to calls Hok Htxn Hkeys) as Hnq.
  apply (listed_is_claimable _ _ _ _ _ Hlist) in Hq.
  apply In_join_missions in Hq. destruct Hq as (Hin & Hc).
  apply claimable_queued in Hc. destruct Hc as (Hst & _).
  specialize (Hnq (q_step q) Hin).
  unfold is_queued in Hnq. rewrite Hid, N.eqb_refl, Hst in Hnq. discriminate.
Qed.

(** In the demo store step 3 is listed before it is claimed and not after. *)
Lemma claimed_step_is_never_listed_again_witness :
  let c1 := fst (claim_step 3%N "sage" demo_conn) in
  let c2 := at_time 200%Z (run_calls demo_calls c1) in
  let listed c := match snd (get_queued_steps None 9%Z c) with
                  | Ok rows => rows
                  | Raise _ => []
                  end in
  map (fun q => s_id (q_step q)) (listed demo_conn) = [3%N] /\
  map (fun q => s_id (q_step q)) (listed c2) = [8%N; 7%N] /\
  forall q, In q (listed c2) -> s_id (q_step q) <> 3%N.
Proof.
  cbv zeta.
  split; [ vm_compute; reflexivity | ]. split; [ vm_compute; reflexivity | ].
  assert (Hok : snd (claim_step 3%N "sage" demo_conn) = Ok true)
    by (vm_compute; reflexivity).
  assert (Hkeys : keys_issued demo_conn).
  { intros s [<- | [<- | []]]; reflexivity. }
  refine (claimed_step_is_never_listed_again demo_conn 3%N "sage" demo_calls 200%Z
            None 9%Z _ Hok eq_refl Hkeys _).
  vm_compute. reflexivity.
Defined.

(** X9.  The deadline is a filter of the listing only.  A queued step
    whose [timeout_at] has passed (or is null) is never returned by
    [get_queued_steps], yet [claim_step] on its id still succeeds:
    nothing stops a worker that already holds the id from claiming an
    expired step. *)
Theorem expired_step_is_hidden_but_claimable (c : conn) (s : step_row)
    (assigned_to : string) :
  In s (steps_of c) -> s_status s = queued -> deadline_ahead (clock c) s = false ->
  (forall kind limit rows,
     get_queued_steps kind limit c = (c, Ok rows) ->
     forall q, In q rows -> q_step q <> s) /\
  snd (claim_step (s_id s) assigned_to c) = Ok true.
Proof.
  intros Hin Hst Hdead. split.
  - intros kind limit rows Hlist q Hq Heq.
    apply (listed_is_claimable _ _ _ _ _ Hlist) in Hq.
    apply In_join_missions in Hq. destruct Hq as (_ & Hc).
    apply claimable_queued in Hc. destruct Hc as (_ & Hd).
    rewrite Heq in Hd. congruence.
  - rewrite claim_step_run.
    destruct (filter (is_queued (s_id s)) (steps_of c)) eqn:Hf; [ | reflexivity ].
    assert (Hs : In s (filter (is_queued (s_id s)) (steps_of c))).
    { apply filter_In. split; [ exact Hin | ].
      unfold is_queued. now rewrite N.eqb_refl, Hst. }
    rewrite Hf in Hs. destruct Hs.
Qed.

(** At time 1000 the queued demo step (deadline 900) has expired. *)
Lemma expired_step_is_hidden_but_claimable_witness :
  let c := at_time 1000%Z demo_conn in
  In demo_queued_step (steps_of c) /\ s_status demo_queued_step = queued /\
  deadline_ahead (clock c) demo_queued_step = false /\
  snd (get_queued_steps None 9%Z c) = Ok [] /\
  snd (claim_step 3%N "sage" c) = Ok true.
Proof.
  cbv zeta. split; [ now left | ]. split; [ reflexivity | ].
  split; [ reflexivity | ]. split; [ reflexivity | ].
  refine (proj2 (expired_step_is_hidden_but_claimable (at_time 1000%Z demo_conn)
                   demo_queued_step "sage" _ eq_refl eq_refl)).
  now left.
Defined.

(** X10.  The listing is the join with the missions.  Every returned row
    carries the title and creator of a mission whose id is the step's
    [mission_id], so a step whose mission row is missing is never
    listed; and when the limit is at least the number of claimable rows,
    every claimable step is returned once for each mission row with its
    mission id. *)
Theorem listing_joins_missions (c : conn) (kind : option string) (limit : Z)
    (rows : list queued_row) :
  get_queued_steps kind limit c = (c, Ok rows) ->
  (forall q, In q rows ->
     exists m, In m (missions_of c) /\ m_id m = s_mission_id (q_step q) /\
               q_mission_title q = m_title m /\ q_created_by q = m_created_by m) /\
  ((Z.of_nat (List.length (join_missions (claimable (clock c) kind) (visible c)))
      <= limit)%Z ->
   forall s m,
     In s (steps_of c) -> claimable (clock c) kind s = true ->
     In m (missions_of c) -> m_id m = s_mission_id s ->
     In (mk_queued s (m_title m) (m_created_by m)) rows).
Proof.
  intros Hlist. split.
  - intros q Hq. apply (listed_is_claimable _ _ _ _ _ Hlist) in Hq.
    unfold join_missions in Hq. apply in_flat_map in Hq.
    destruct Hq as (s & Hs & Hq). apply in_map_iff in Hq.
    destruct Hq as (m & <- & Hm). apply filter_In in Hm. destruct Hm as (Hm & Heq).
    apply N.eqb_eq in Heq. exists m. simpl. auto.
  - intros Hlimit s m Hs Hc Hm Hid.
    rewrite get_queued_steps_run in Hlist.
    destruct (limit <? 0)%Z eqn:Hneg; [ discriminate | ].
    inversion Hlist as [Hrows]. clear Hlist.
    rewrite firstn_all2.
    2:{ rewrite (Permutation_length (order_by_perm _ _)). lia. }
    apply (Permutation_in _ (Permutation_sym (order_by_perm _ _))).
    unfold join_missions. apply in_flat_map. exists s. split.
    + apply filter_In. auto.
    + apply in_map_iff. exists m. split; [ reflexivity | ].
      apply filter_In. split; [ exact Hm | ]. apply N.eqb_eq. congruence.
Qed.

Lemma listing_joins_missions_witness :
  let orphan := mk_step 9%N 77%N (PStr "analyze") (PDict []) PNone queued
                        (Some 900%Z) None None 62%Z None None in
  let c := mk_conn (mk_tables [] [demo_mission] [demo_queued_step; orphan] [])
                   None 10%N 100%Z None in
  get_queued_steps None 9%Z c = (c, Ok [mk_queued demo_queued_step "earlier mission" "ops"]) /\
  (forall q, In q [mk_queued demo_queued_step "earlier mission" "ops"] ->
     exists m, In m (missions_of c) /\ m_id m = s_mission_id (q_step q) /\
               q_mission_title q = m_title m /\ q_created_by q = m_created_by m).
Proof.
  cbv zeta. split; [ reflexivity | ].
  match goal with
  | |- forall q, In q ?rows -> exists m, In m (missions_of ?c) /\ _ =>
      exact (proj1 (listing_joins_missions c None 9%Z rows eq_refl))
  end.
Defined.

(* ===================================================================== *)
(** * The compiler: further properties *)
(* ===================================================================== *)

Lemma find_accepted_of_first (proposal_id : uuid) (l : list proposal_row)
    (p : proposal_row) :
  find (has_id proposal_id) l = Some p -> p_status p = accepted ->
  find (accepted_with_id proposal_id) l = Some p.
Proof.
  unfold has_id, accepted_with_id.
  induction l as [ | q l IH ]; simpl; [ discriminate | ].
  destruct (N.eqb (p_id q) proposal_id); simpl.
  - intros H Hst. inversion H; subst. now rewrite Hst.
  - exact IH.
Qed.

Lemma find_accepted_after_reaccept (proposal_id : uuid) (now : timestamp)
    (l : list proposal_row) :
  find (accepted_with_id proposal_id)
       (update_where (fun q => N.eqb (p_id q) proposal_id) (reaccepted now) l)
  = option_map (reaccepted now) (find (has_id proposal_id) l).
Proof.
  unfold has_id, accepted_with_id.
  induction l as [ | q l IH ]; simpl; [ reflexivity | ].
  destruct (N.eqb (p_id q) proposal_id) eqn:Heq; simpl.
  - now rewrite Heq.
  - now rewrite Heq.
Qed.

(** X11.  Nothing guards against compiling a proposal twice.  When the
    first proposal of the given id is accepted and its templates are
    mappings, compiling it succeeds, and compiling it again right after
    succeeds as well: two distinct mission ids are returned, two missions
    are committed and every template has become two steps. *)
Theorem compiling_twice_creates_two_missions (c : conn) (proposal_id : uuid)
    (created_by : string) (p : proposal_row) (templates : list dict) :
  find (has_id proposal_id) (ops_trading_proposals (visible c)) = Some p ->
  p_status p = accepted ->
  p_proposed_steps p = PList (map PDict templates) ->
  exists c1 c2,
    create_mission_from_proposal proposal_id created_by c = (c1, Ok (next_uuid c)) /\
    create_mission_from_proposal proposal_id created_by c1 = (c2, Ok (next_uuid c1)) /\
    (next_uuid c < next_uuid c1)%N /\
    List.length (ops_missions (committed c2))
      = (List.length (ops_missions (visible c)) + 2)%nat /\
    List.length (ops_mission_steps (committed c2))
      = (List.length (ops_mission_steps (visible c)) + 2 * List.length templates)%nat.
Proof.
  intros Hfirst Hst Hsteps.
  pose proof (find_accepted_of_first _ _ _ Hfirst Hst) as Hfind.
  destruct (built_steps_of_dicts (next_uuid c) (clock c) (step_ttl c) templates
              (N.succ (next_uuid c))) as (rows & Hrun & Hrows & _).
  set (next1 := (N.succ (next_uuid c) + N.of_nat (List.length templates))%N) in *.
  destruct (built_steps_of_dicts next1 (clock c) (step_ttl c) templates
              (N.succ next1)) as (rows2 & Hrun2 & Hrows2 & _).
  set (c1 := mk_conn (compiled_tables c proposal_id created_by p rows) None next1
                     (clock c) (step_ttl c)).
  assert (H1 : create_mission_from_proposal proposal_id created_by c
               = (c1, Ok (next_uuid c))).
  { rewrite create_mission_from_proposal_run, Hfind, Hsteps. cbn [py_iter].
    rewrite Hrun. reflexivity. }
  assert (Hfind1 : find (accepted_with_id proposal_id)
                     (ops_trading_proposals (visible c1))
                   = Some (reaccepted (clock c) p)).
  { unfold c1, visible. cbn [txn committed compiled_tables ops_trading_proposals].
    fold (visible c). now rewrite find_accepted_after_reaccept, Hfirst. }
  exists c1.
  exists (mk_conn (compiled_tables c1 proposal_id created_by (reaccepted (clock c) p)
                     rows2)
                  None (N.succ next1 + N.of_nat (List.length templates))%N
                  (clock c) (step_ttl c)).
  split; [ exact H1 | ]. split.
  - rewrite create_mission_from_proposal_run, Hfind1.
    cbn [reaccepted p_proposed_steps]. rewrite Hsteps. cbn [py_iter].
    change (next_uuid c1) with next1. change (clock c1) with (clock c).
    change (step_ttl c1) with (step_ttl c). rewrite Hrun2. reflexivity.
  - change (next_uuid c1) with next1. split; [ unfold next1; lia | ].
    apply Forall2_length in Hrows. apply Forall2_length in Hrows2.
    assert (Hv1 : visible c1 = compiled_tables c proposal_id created_by p rows)
      by reflexivity.
    cbn [committed compiled_tables ops_missions ops_mission_steps].
    rewrite Hv1. cbn [compiled_tables ops_missions ops_mission_steps].
    rewrite !length_app. cbn [List.length]. split; lia.
Qed.

Lemma compiling_twice_creates_two_missions_witness :
  exists c1 c2,
    create_mission_from_proposal 1%N "ops" demo_conn = (c1, Ok 6%N) /\
    create_mission_from_proposal 1%N "ops" c1 = (c2, Ok 9%N) /\
    map m_proposal_id (ops_missions (committed c2)) = [None; Some 1%N; Some 1%N] /\
    List.length (ops_mission_steps (committed c2)) = 6%nat.
Proof.
  destruct (compiling_twice_creates_two_missions demo_conn 1%N "ops" demo_proposal
              [ [("kind", PStr "analyze"); ("assigned_to", PStr "sage")];
                [("kind", PStr "execute_trade"); ("assigned_to", PStr "scout")] ]
              eq_refl eq_refl eq_refl) as (c1 & c2 & H1 & H2 & _ & _ & Hlen).
  exists c1, c2.
  assert (E1 : c1 = fst (create_mission_from_proposal 1%N "ops" demo_conn))
    by (now rewrite H1).
  assert (E2 : c2 = fst (create_mission_from_proposal 1%N "ops" c1))
    by (now rewrite H2).
  split; [ exact H1 | ]. split; [ rewrite H2; subst c1; reflexivity | ].
  split; [ subst c2 c1; reflexivity | exact Hlen ].
Defined.

(* ===================================================================== *)
(** * The mission tracker: further properties *)
(* ===================================================================== *)

Lemma clock_put_visible_eq (t : tables) (c : conn) :
  clock (put_visible t c) = clock c.
Proof. unfold put_visible. destruct (txn c); reflexivity. Qed.

Lemma not_pending_finished (mission_id : uuid) (steps : list step_row) :
  filter (is_pending mission_id) steps = [] -> all_finished mission_id steps.
Proof.
  intros Hf s Hin Hm.
  assert (Hp : is_pending mission_id s = false).
  { destruct (is_pending mission_id s) eqn:Hp; [ | reflexivity ].
    assert (Hs : In s (filter (is_pending mission_id) steps))
      by (apply filter_In; auto).
    rewrite Hf in Hs. destruct Hs. }
  unfold is_pending in Hp. rewrite Hm, N.eqb_refl in Hp. simpl in Hp.
  destruct (s_status s); simpl in Hp; try discriminate; auto.
Qed.

(** X12.  A mission is marked only by its own last completion.
    [complete_step] leaves every mission row in place, and each one
    either unchanged or marked succeeded at the time of the call; a
    mission is marked only if the call completed a running step of that
    mission and, after the call, every step of the mission has succeeded
    or failed.  So no mission is marked while one of its steps is still
    queued or running, and no completion touches another mission. *)
Theorem mission_marked_only_when_finished (c : conn) (step_id : uuid)
    (result_data : option pyval) (error : option string) :
  let c' := fst (complete_step step_id result_data error c) in
  Forall2 (fun m m' =>
             m' = m \/
             (m' = marked (clock c) m /\
              all_finished (m_id m) (steps_of c') /\
              exists s, In s (steps_of c) /\ is_running step_id s = true /\
                        s_mission_id s = m_id m))
          (missions_of c) (missions_of c').
Proof.
  cbv zeta.
  assert (Hrefl : forall (P : mission_row -> mission_row -> Prop) l,
            (forall m, P m m) -> Forall2 P l l).
  { intros P l H. induction l; constructor; auto. }
  rewrite steps_of_complete_step. rewrite complete_step_run.
  destruct (filter (is_running step_id) (steps_of c)) as [ | s hit ] eqn:Hf.
  - cbn [fst]. apply Hrefl. now left.
  - cbv zeta. rewrite steps_of_after_completion.
    assert (Hs : In s (filter (is_running step_id) (steps_of c)))
      by (rewrite Hf; now left).
    apply filter_In in Hs. destruct Hs as (Hin & Hrun).
    destruct (Nat.eqb _ 0) eqn:Hp; cbn [fst].
    + apply Nat.eqb_eq, length_zero_iff_nil in Hp.
      rewrite mark_mission_succeeded_run. cbn [fst].
      unfold missions_of at 2. rewrite visible_put_visible.
      cbn [set_missions ops_missions].
      unfold after_completion. rewrite visible_put_visible, clock_put_visible_eq.
      cbn [set_steps ops_missions]. fold (missions_of c).
      apply Forall2_update_where_in. intros m _.
      destruct (N.eqb (m_id m) (s_mission_id s)) eqn:Heq; [ | now left ].
      apply N.eqb_eq in Heq. right.
      split; [ reflexivity | ]. split.
      * rewrite Heq. now apply not_pending_finished.
      * exists s. auto.
    + unfold missions_of, after_completion. rewrite visible_put_visible.
      cbn [set_steps ops_missions]. apply Hrefl. now left.
Qed.

Lemma effect_keeps_empty_mission (m0 : mission_row) (now : timestamp) (c : conn)
    (t' : tables) (next' : uuid) :
  (m_id m0 < next_uuid c)%N ->
  (forall s, In s (steps_of c) -> s_mission_id s <> m_id m0) ->
  In m0 (missions_of c) ->
  effect now c t' -> (next_uuid c <= next')%N ->
  (m_id m0 < next')%N /\
  (forall s, In s (ops_mission_steps t') -> s_mission_id s <> m_id m0) /\
  In m0 (ops_missions t').
Proof.
  intros Hkey Hnone Hin He Hle. split; [ lia | ].
  assert (Hclaim : forall sid who s,
    In s (update_where (is_queued sid) (claimed who now) (steps_of c)) ->
    s_mission_id s <> m_id m0).
  { intros sid who s Hs. apply In_update_where in Hs. destruct Hs as (s0 & Hs0 & ->).
    destruct (is_queued sid s0); [ simpl | ]; now apply Hnone. }
  assert (Hdone : forall sid rd err s,
    In s (update_where (is_running sid)
            (completed (status_of_error err) (json_of_result rd) err now)
            (steps_of c)) ->
    s_mission_id s <> m_id m0).
  { intros sid rd err s Hs. apply In_update_where in Hs.
    destruct Hs as (s0 & Hs0 & ->).
    destruct (is_running sid s0); [ simpl | ]; now apply Hnone. }
  destruct He as [ | sid who | sid rd err | sid rd err s Hs Hrun steps' Hp
                   | pid by_ p rows Hfind Hrows ]; simpl.
  - auto.
  - split; [ apply Hclaim | exact Hin ].
  - split; [ apply Hdone | exact Hin ].
  - split; [ apply Hdone | ].
    apply In_update_where. exists m0. split; [ exact Hin | ].
    destruct (N.eqb (m_id m0) (s_mission_id s)) eqn:Heq; [ | reflexivity ].
    apply N.eqb_eq in Heq. exfalso. apply (Hnone s Hs). congruence.
  - split.
    + intros s Hs. apply in_app_or in Hs. destruct Hs as [Hs | Hs].
      * now apply Hnone.
      * destruct (Hrows s Hs) as (_ & Hm & _). rewrite Hm. lia.
    + apply in_or_app. now left.
Qed.

(** X13.  A mission without steps never completes.  An accepted proposal
    with an empty template list compiles into a mission with no step;
    since a mission is only ever marked by completing one of its steps,
    that mission row stays exactly as created (running, no completion
    time) after any session, and no step is ever attached to it. *)
Theorem mission_without_steps_stays_running (c : conn) (proposal_id : uuid)
    (created_by : string) (p : proposal_row) (calls : list (timestamp * call)) :
  txn c = None ->
  find (accepted_with_id proposal_id) (ops_trading_proposals (visible c)) = Some p ->
  p_proposed_steps p = PList [] ->
  (forall s, In s (steps_of c) -> (s_mission_id s < next_uuid c)%N) ->
  let out := create_mission_from_proposal proposal_id created_by c in
  let c2 := run_calls calls (fst out) in
  snd out = Ok (next_uuid c) /\
  In (mission_for c proposal_id created_by p) (missions_of c2) /\
  (forall s, In s (steps_of c2) -> s_mission_id s <> next_uuid c).
Proof.
  intros Htxn Hfind Hsteps Hrefs. cbv zeta.
  rewrite create_mission_from_proposal_run, Hfind, Hsteps. cbn [py_iter built_steps fst snd].
  split; [ reflexivity | ].
  set (m0 := mission_for c proposal_id created_by p).
  set (c1 := mk_conn (compiled_tables c proposal_id created_by p []) None
                     (N.succ (next_uuid c)) (clock c) (step_ttl c)).
  assert (Hinv : txn (run_calls calls c1) = None /\
                 ((m_id m0 < next_uuid (run_calls calls c1))%N /\
                  (forall s, In s (ops_mission_steps (visible (run_calls calls c1))) ->
                             s_mission_id s <> m_id m0) /\
                  In m0 (ops_missions (visible (run_calls calls c1))))).
  { apply (session_invariant
             (fun t n => (m_id m0 < n)%N /\
                         (forall s, In s (ops_mission_steps t) -> s_mission_id s <> m_id m0) /\
                         In m0 (ops_missions t))).
    - intros now c0 t' next' _ (H1 & H2 & H3) He Hle.
      exact (effect_keeps_empty_mission m0 now c0 t' next' H1 H2 H3 He Hle).
    - reflexivity.
    - split; [ simpl; lia | ]. split.
      + intros s Hs. unfold c1, visible in Hs. simpl in Hs. rewrite app_nil_r in Hs.
        specialize (Hrefs s Hs). simpl. lia.
      + unfold c1, visible. simpl. apply in_or_app. right. now left. }
  destruct Hinv as (_ & _ & H2 & H3). split; [ exact H3 | exact H2 ].
Qed.

(** An accepted proposal without templates, compiled in the demo store
    and followed by the demo session. *)
Lemma mission_without_steps_stays_running_witness :
  let p := mk_proposal 8%N "intel" "idle" "none" (PList []) accepted None in
  let c := mk_conn (mk_tables [p] [demo_mission]
                              [demo_queued_step; demo_running_step] [])
                   None 9%N 100%Z None in
  let c2 := run_calls demo_calls (fst (create_mission_from_proposal 8%N "ops" c)) in
  snd (create_mission_from_proposal 8%N "ops" c) = Ok 9%N /\
  In (mission_for c 8%N "ops" p) (missions_of c2) /\
  (forall s, In s (steps_of c2) -> s_mission_id s <> 9%N).
Proof.
  cbv zeta.
  match goal with
  | |- context [create_mission_from_proposal 8%N "ops" ?c] =>
      match goal with
      | |- context [mission_for c 8%N "ops" ?p] =>
          refine (mission_without_steps_stays_running c 8%N "ops" p demo_calls
                    eq_refl eq_refl eq_refl _)
      end
  end.
  intros s [<- | [<- | []]]; reflexivity.
Defined.

(* ===================================================================== *)
(** * Trade outcomes *)
(* ===================================================================== *)

Lemma overwritten_trade (exit_price pnl pnl_percent : pyval) (hold : option Z)
    (outcome : string) (lessons : list string) (rows : list outcome_row)
    (where_ : outcome_row -> bool) :
  map o_trade_id
      (update_where where_ (overwritten exit_price pnl pnl_percent hold outcome lessons)
                    rows)
  = map o_trade_id rows.
Proof.
  induction rows as [ | r rows IH ]; simpl; [ reflexivity | ].
  rewrite IH. destruct (where_ r); reflexivity.
Qed.

Lemma find_for_trade_none (trade_id : uuid) (rows : list outcome_row) :
  find (for_trade trade_id) rows = None <-> ~ In trade_id (map o_trade_id rows).
Proof.
  unfold for_trade. induction rows as [ | r rows IH ]; simpl; [ tauto | ].
  destruct (N.eqb (o_trade_id r) trade_id) eqn:Heq.
  - apply N.eqb_eq in Heq. split; [ discriminate | tauto ].
  - apply N.eqb_neq in Heq. rewrite IH. tauto.
Qed.

Lemma record_trade_outcome_keeps_index (trade_id : uuid)
    (entry_price exit_price pnl pnl_percent : pyval) (hold : option Z)
    (outcome : string) (lessons : option (list string)) (d : ledger) :
  one_row_per_trade d ->
  one_row_per_trade
    (fst (record_trade_outcome trade_id entry_price exit_price pnl pnl_percent hold
            outcome lessons d)).
Proof.
  unfold one_row_per_trade, record_trade_outcome. intros Hnd.
  destruct (find (for_trade trade_id) (ops_trade_outcomes d)) eqn:Hfind;
    cbn [fst ops_trade_outcomes].
  - now rewrite overwritten_trade.
  - rewrite map_app. cbn [map o_trade_id].
    apply find_for_trade_none in Hfind.
    apply NoDup_app; [ exact Hnd | constructor; [ intros [] | constructor ] | ].
    intros x Hx [<- | []]. contradiction.
Qed.

(** X14.  One row per trade, whatever is recorded.  If no two outcome
    rows are for the same trade, this is still so after any sequence of
    recordings and cleanups; and a recording leaves exactly the given
    exit price, PnL figures, hold time, outcome type and lessons in the
    row of the trade, whose id it returns, and leaves the rows of all
    other trades as they were. *)
Theorem one_outcome_row_per_trade (calls : list (timestamp * ledger_call))
    (d : ledger) :
  one_row_per_trade d ->
  one_row_per_trade (run_ledger_calls calls d) /\
  forall trade_id entry_price exit_price pnl pnl_percent hold outcome lessons,
    let out := record_trade_outcome trade_id entry_price exit_price pnl pnl_percent
                 hold outcome lessons d in
    (exists r, In r (ops_trade_outcomes (fst out)) /\
               o_trade_id r = trade_id /\ o_id r = snd out /\
               o_exit_price r = exit_price /\ o_pnl r = pnl /\
               o_pnl_percent r = pnl_percent /\ o_hold_time_seconds r = hold /\
               o_outcome_type r = outcome /\
               o_lessons_learned r = list_or_empty lessons) /\
    (forall r, In r (ops_trade_outcomes d) -> o_trade_id r <> trade_id ->
               In r (ops_trade_outcomes (fst out))).
Proof.
  intros Hnd. split.
  - revert d Hnd. induction calls as [ | [now k] rest IH ]; intros d Hnd; simpl;
      [ exact Hnd | ].
    apply IH. destruct k; unfold run_ledger_call.
    + exact Hnd.
    + apply record_trade_outcome_keeps_index. exact Hnd.
    + unfold cleanup_stale_data.
      destruct (cutoff_date today days_to_keep); exact Hnd.
  - intros trade_id entry_price exit_price pnl pnl_percent hold outcome lessons.
    cbv zeta. unfold record_trade_outcome.
    destruct (find (for_trade trade_id) (ops_trade_outcomes d)) as [r0 | ] eqn:Hfind;
      cbn [fst snd ops_trade_outcomes].
    + apply find_some in Hfind. destruct Hfind as (Hin & Hfor).
      split.
      * exists (overwritten exit_price pnl pnl_percent hold outcome
                  (list_or_empty lessons) r0).
        split.
        -- apply In_update_where. exists r0. now rewrite Hfor.
        -- unfold for_trade in Hfor. apply N.eqb_eq in Hfor. simpl.
           repeat split; auto.
      * intros r Hr Hne. apply In_update_where. exists r. split; [ exact Hr | ].
        unfold for_trade. apply N.eqb_neq in Hne. now rewrite Hne.
    + split.
      * eexists. split; [ apply in_or_app; right; left; reflexivity | ].
        simpl. repeat split.
      * intros r Hr _. apply in_or_app. now left.
Qed.

Lemma one_outcome_row_per_trade_witness :
  let d := mk_ledger demo_conn
             [mk_outcome 20%N 11%N (PNum 100) (PNum 110) (PNum 10) (PNum 10)
                         (Some 3600%Z) "win" []]
             [] [] true in
  let calls := [(101%Z, RecordOutcome 11%N (PNum 999) (PNum 90) (PNum (-10)) (PNum (-10))
                                      None "loss" (Some ["stop too tight"]));
                (102%Z, RecordOutcome 12%N (PNum 50) (PNum 55) (PNum 5) (PNum 10)
                                      None "win" None);
                (103%Z, Cleanup 1000%Z 0%Z)] in
  one_row_per_trade d /\
  one_row_per_trade (run_ledger_calls calls d) /\
  map o_trade_id (ops_trade_outcomes (run_ledger_calls calls d)) = [11%N; 12%N].
Proof.
  cbv zeta.
  match goal with
  | |- one_row_per_trade ?d /\ _ =>
      assert (Hnd : one_row_per_trade d)
        by (unfold one_row_per_trade; simpl;
            constructor; [ intros [] | constructor ])
  end.
  split; [ exact Hnd | ].
  split; [ | vm_compute; reflexivity ].
  exact (proj1 (one_outcome_row_per_trade _ _ Hnd)).
Defined.

Lemma update_where_none {R} (where_ : R -> bool) (set : R -> R) (rows : list R) :
  find where_ rows = None -> update_where where_ set rows = rows.
Proof.
  induction rows as [ | r rows IH ]; simpl; [ reflexivity | ].
  destruct (where_ r); [ discriminate | ]. intros H. now rewrite IH.
Qed.

Lemma update_where_app {R} (where_ : R -> bool) (set : R -> R) (a b : list R) :
  update_where where_ set (a ++ b) = update_where where_ set a ++ update_where where_ set b.
Proof. apply map_app. Qed.

Lemma find_app_none {R} (where_ : R -> bool) (rows : list R) (r : R) :
  find where_ rows = None -> where_ r = true -> find where_ (rows ++ [r]) = Some r.
Proof.
  induction rows as [ | x rows IH ]; simpl; intros Hn Hr.
  - now rewrite Hr.
  - destruct (where_ x); [ discriminate | auto ].
Qed.

Lemma record_trade_outcome_new (d : ledger) (trade_id : uuid)
    (entry_price exit_price pnl pnl_percent : pyval) (hold : option Z)
    (outcome : string) (lessons : option (list string)) :
  find (for_trade trade_id) (ops_trade_outcomes d) = None ->
  record_trade_outcome trade_id entry_price exit_price pnl pnl_percent hold outcome
    lessons d
  = (mk_ledger (key_taken (session d))
       (ops_trade_outcomes d ++
          [mk_outcome (next_uuid (session d)) trade_id entry_price exit_price pnl
                      pnl_percent hold outcome (list_or_empty lessons)])
       (ops_agent_events d) (ops_action_runs d) (events_stamped d),
     next_uuid (session d)).
Proof. intros H. unfold record_trade_outcome. now rewrite H. Qed.

(** X15.  A second recording keeps the first id and entry price.  For a
    trade that has no outcome row yet, recording an outcome and then
    recording another one for the same trade returns the same id twice
    and leaves one new row: the entry price of the first call with every
    other column of the second.  The entry price passed to the second
    call is silently dropped. *)
Theorem second_recording_keeps_id_and_entry_price (d : ledger) (trade_id : uuid)
    (entry1 exit1 pnl1 pct1 : pyval) (hold1 : option Z) (outcome1 : string)
    (lessons1 : option (list string))
    (entry2 exit2 pnl2 pct2 : pyval) (hold2 : option Z) (outcome2 : string)
    (lessons2 : option (list string)) :
  find (for_trade trade_id) (ops_trade_outcomes d) = None ->
  let first := record_trade_outcome trade_id entry1 exit1 pnl1 pct1 hold1 outcome1
                 lessons1 d in
  let second := record_trade_outcome trade_id entry2 exit2 pnl2 pct2 hold2 outcome2
                  lessons2 (fst first) in
  snd second = snd first /\
  ops_trade_outcomes (fst second)
  = ops_trade_outcomes d ++
    [mk_outcome (snd first) trade_id entry1 exit2 pnl2 pct2 hold2 outcome2
                (list_or_empty lessons2)].
Proof.
  intros Hnone. cbv zeta.
  rewrite (record_trade_outcome_new d trade_id entry1 exit1 pnl1 pct1 hold1 outcome1
             lessons1 Hnone).
  cbn [fst snd].
  assert (Hfor : for_trade trade_id
                   (mk_outcome (next_uuid (session d)) trade_id entry1 exit1 pnl1 pct1
                               hold1 outcome1 (list_or_empty lessons1)) = true).
  { unfold for_trade. simpl. apply N.eqb_refl. }
  unfold record_trade_outcome. cbn [ops_trade_outcomes].
  rewrite (find_app_none _ _ _ Hnone Hfor). cbn [fst snd ops_trade_outcomes o_id].
  split; [ reflexivity | ].
  rewrite update_where_app, (update_where_none _ _ _ Hnone).
  unfold update_where. cbn [map]. rewrite Hfor. reflexivity.
Qed.

Lemma second_recording_keeps_id_and_entry_price_witness :
  let d := mk_ledger demo_conn [] [] [] true in
  let first := record_trade_outcome 11%N (PNum 100) (PNum 110) (PNum 10) (PNum 10)
                 (Some 3600%Z) "win" None d in
  let second := record_trade_outcome 11%N (PNum 105) (PNum 90) (PNum (-10)) (PNum (-10))
                  None "loss" (Some ["stop too tight"]) (fst first) in
  find (for_trade 11%N) (ops_trade_outcomes d) = None /\
  snd second = snd first /\
  map o_entry_price (ops_trade_outcomes (fst second)) = [PNum 100] /\
  map o_outcome_type (ops_trade_outcomes (fst second)) = ["loss"].
Proof.
  cbv zeta. split; [ reflexivity | ].
  split; [ | split; vm_compute; reflexivity ].
  exact (proj1 (second_recording_keeps_id_and_entry_price
                  (mk_ledger demo_conn [] [] [] true) 11%N
                  (PNum 100) (PNum 110) (PNum 10) (PNum 10) (Some 3600%Z) "win" None
                  (PNum 105) (PNum 90) (PNum (-10)) (PNum (-10)) None "loss"
                  (Some ["stop too tight"]) eq_refl)).
Defined.

(* ===================================================================== *)
(** * Events, action runs and the cleanup *)
(* ===================================================================== *)

Lemma run_ledger_call_keeps (now : timestamp) (k : ledger_call) (d : ledger) :
  (forall e, In e (ops_agent_events d) ->
             is_protected e = true \/ e_created_at e = None ->
             In e (ops_agent_events (run_ledger_call now k d))) /\
  (forall a, In a (ops_action_runs d) ->
             a_status a <> "success" \/ a_created_at a = None ->
             In a (ops_action_runs (run_ledger_call now k d))).
Proof.
  destruct k; unfold run_ledger_call.
  - split; [ | auto ]. intros e He _. simpl. apply in_or_app. now left.
  - unfold record_trade_outcome.
    destruct (find _ _); split; auto.
  - unfold cleanup_stale_data.
    destruct (cutoff_date today days_to_keep) as [cutoff | ]; [ | split; auto ].
    cbn [fst ops_agent_events ops_action_runs ledger_at]. split.
    + intros e He Hkeep. apply filter_In. split; [ exact He | ].
      unfold stale_event. destruct Hkeep as [Hp | Hn].
      * rewrite Hp. simpl. now rewrite andb_false_r.
      * rewrite Hn. reflexivity.
    + intros a Ha Hkeep. apply filter_In. split; [ exact Ha | ].
      unfold stale_run. destruct Hkeep as [Hs | Hn].
      * apply String.eqb_neq in Hs. rewrite Hs. simpl. now rewrite andb_false_r.
      * rewrite Hn. reflexivity.
Qed.

(** X16.  What no cleanup ever deletes.  Through any sequence of
    recordings and cleanups, with any retention (negative included) and
    any clock reading, an event carrying one of the tags big_win,
    big_loss or system_alert stays in the table, and so does an action
    run whose status is not 'success', and so does any row without a
    creation time. *)
Theorem cleanup_never_deletes_protected_rows (calls : list (timestamp * ledger_call))
    (d : ledger) :
  (forall e, In e (ops_agent_events d) ->
             is_protected e = true \/ e_created_at e = None ->
             In e (ops_agent_events (run_ledger_calls calls d))) /\
  (forall a, In a (ops_action_runs d) ->
             a_status a <> "success" \/ a_created_at a = None ->
             In a (ops_action_runs (run_ledger_calls calls d))).
Proof.
  revert d. induction calls as [ | [now k] rest IH ]; intros d; simpl; [ auto | ].
  destruct (run_ledger_call_keeps now k d) as (He & Ha).
  destruct (IH (run_ledger_call now k d)) as (IHe & IHa).
  split; [ intros e Hin Hk; apply IHe; auto | intros a Hin Hk; apply IHa; auto ].
Qed.

Lemma older_than_max (c1 c2 : timestamp) (created : option timestamp) :
  older_than (Z.max c1 c2) created = older_than c1 created || older_than c2 created.
Proof.
  destruct created as [t | ]; simpl; [ | reflexivity ].
  destruct (Z.ltb_spec t c1), (Z.ltb_spec t c2), (Z.ltb_spec t (Z.max c1 c2));
    simpl; try reflexivity; lia.
Qed.

Lemma filter_filter {A} (f g : A -> bool) (l : list A) :
  filter g (filter f l) = filter (fun x => f x && g x) l.
Proof.
  induction l as [ | x l IH ]; simpl; [ reflexivity | ].
  destruct (f x); simpl; [ destruct (g x); now rewrite IH | exact IH ].
Qed.

(** X17.  Cleanups compose by the later cutoff.  Two cleanups in a row
    leave exactly what one cleanup at the later of their two cutoff
    dates leaves; in particular repeating a cleanup changes nothing, and
    after a cleanup a longer retention deletes nothing more. *)
Theorem cleanups_compose_by_later_cutoff (d : ledger)
    (today1 days1 today2 days2 today3 days3 : Z) (cut1 cut2 : timestamp) :
  cutoff_date today1 days1 = Some cut1 ->
  cutoff_date today2 days2 = Some cut2 ->
  cutoff_date today3 days3 = Some (Z.max cut1 cut2) ->
  fst (cleanup_stale_data today2 days2 (fst (cleanup_stale_data today1 days1 d)))
  = fst (cleanup_stale_data today3 days3 d).
Proof.
  intros H1 H2 H3. unfold cleanup_stale_data. rewrite H1, H2, H3.
  cbn [fst session ops_trade_outcomes ops_agent_events ops_action_runs events_stamped].
  rewrite !filter_filter. f_equal.
  - apply filter_ext. intros e. unfold stale_event. rewrite older_than_max.
    destruct (older_than cut1 _), (older_than cut2 _), (is_protected e); reflexivity.
  - apply filter_ext. intros a. unfold stale_run. rewrite older_than_max.
    destruct (older_than cut1 _), (older_than cut2 _), (String.eqb _ _); reflexivity.
Qed.

(** On day 1000 of year 1: thirty days of retention, then ninety, is
    thirty. *)
Lemma cleanups_compose_by_later_cutoff_witness :
  let today := (1000 * day)%Z in
  let old := mk_event 30%N "intel" "note" "t" "s" [] None PNone PNone (PDict [])
                      (Some (950 * day)%Z) in
  let win := mk_event 31%N "intel" "note" "t" "s" ["big_win"] None PNone PNone
                      (PDict []) (Some (900 * day)%Z) in
  let d := mk_ledger demo_conn [] [old; win] [] true in
  cutoff_date today 30 = Some (970 * day)%Z /\
  cutoff_date today 90 = Some (910 * day)%Z /\
  fst (cleanup_stale_data today 90 (fst (cleanup_stale_data today 30 d)))
  = fst (cleanup_stale_data today 30 d) /\
  map e_id (ops_agent_events (fst (cleanup_stale_data today 30 d))) = [31%N].
Proof.
  cbv zeta.
  assert (H30 : cutoff_date (1000 * day)%Z 30%Z = Some (970 * day)%Z)
    by (vm_compute; reflexivity).
  assert (H90 : cutoff_date (1000 * day)%Z 90%Z = Some (910 * day)%Z)
    by (vm_compute; reflexivity).
  split; [ exact H30 | ]. split; [ exact H90 | ].
  split; [ | vm_compute; reflexivity ].
  apply (cleanups_compose_by_later_cutoff _ _ _ _ _ _ _ _ _ H30 H90).
  vm_compute. reflexivity.
Defined.

Lemma day_positive : (0 < day)%Z.
Proof. reflexivity. Qed.

Lemma datetime_max_days : datetime_max = (3652059 * day - 1)%Z.
Proof. reflexivity. Qed.

Lemma cutoff_date_cases (today days_to_keep : Z) :
  match cutoff_date today days_to_keep with
  | Some cutoff =>
      cutoff = (today - days_to_keep * day)%Z /\
      (Z.abs days_to_keep <= timedelta_max_days)%Z /\
      (0 <= cutoff <= datetime_max)%Z
  | None =>
      (timedelta_max_days < Z.abs days_to_keep)%Z \/
      (today - days_to_keep * day < 0)%Z \/
      (datetime_max < today - days_to_keep * day)%Z
  end.
Proof.
  unfold cutoff_date.
  destruct (Z.gtb_spec (Z.abs days_to_keep) timedelta_max_days) as [Hbig | Hok].
  - left. exact Hbig.
  - cbv zeta.
    destruct (Z.ltb_spec (today - days_to_keep * day)%Z 0%Z) as [Hneg | Hpos]; simpl.
    + right. left. exact Hneg.
    + destruct (Z.ltb_spec datetime_max (today - days_to_keep * day)%Z) as [Hhigh | Hfit].
      * right. right. exact Hhigh.
      * repeat split; assumption.
Qed.

Lemma days_times_day_mono (a b : Z) : (a <= b -> a * day <= b * day)%Z.
Proof. intros H. apply Z.mul_le_mono_nonneg_r; [ pose proof day_positive; lia | exact H ]. Qed.

Lemma days_below (a b : Z) : (a * day < b * day -> a < b)%Z.
Proof.
  intros H. destruct (Z.lt_ge_cases a b) as [Hlt | Hge]; [ exact Hlt | ].
  pose proof (days_times_day_mono b a Hge). lia.
Qed.

(** X18.  The retention is not validated.  For any reading of the
    client's clock, a retention of 3652059 days or more (the span of all
    datetimes) makes the cutoff date unrepresentable: the call raises
    [OverflowError] and deletes nothing, instead of keeping everything.
    A retention between zero and the days elapsed since year 1 is
    accepted.  A negative retention is accepted too whenever the cutoff,
    now in the future, is still a datetime. *)
Theorem cleanup_retention_bounds (today days_to_keep : Z) (d : ledger) :
  (0 <= today <= datetime_max)%Z ->
  ((3652059 <= days_to_keep)%Z ->
   cleanup_stale_data today days_to_keep d = (d, OverflowError)) /\
  ((0 <= days_to_keep)%Z -> (days_to_keep * day <= today)%Z ->
   snd (cleanup_stale_data today days_to_keep d) = Cleaned) /\
  ((days_to_keep < 0)%Z -> (today - days_to_keep * day <= datetime_max)%Z ->
   snd (cleanup_stale_data today days_to_keep d) = Cleaned).
Proof.
  intros (Hlow & Hhigh). rewrite datetime_max_days in Hhigh.
  unfold cleanup_stale_data.
  pose proof (cutoff_date_cases today days_to_keep) as Hc.
  rewrite datetime_max_days in Hc.
  set (span := (3652059 * day)%Z) in *.
  set (kept := (days_to_keep * day)%Z) in *.
  split; [ | split ].
  - intros Hbig. destruct (cutoff_date today days_to_keep) as [cutoff | ];
      [ exfalso | reflexivity ].
    pose proof (days_times_day_mono _ _ Hbig). fold span kept in H. lia.
  - intros Hpos Hfit. destruct (cutoff_date today days_to_keep) as [cutoff | ];
      [ reflexivity | exfalso ].
    assert (Hsmall : (days_to_keep < 3652059)%Z)
      by (apply days_below; fold span kept; lia).
    pose proof (days_times_day_mono _ _ Hpos) as Hk. fold kept in Hk.
    simpl in Hk. unfold timedelta_max_days in Hc. lia.
  - intros Hneg Hfit. rewrite datetime_max_days in Hfit. fold span in Hfit.
    destruct (cutoff_date today days_to_keep) as [cutoff | ];
      [ reflexivity | exfalso ].
    assert (Hsmall : (- 3652059 < days_to_keep)%Z).
    { apply days_below. fold kept.
      replace (- 3652059 * day)%Z with (- span)%Z by (unfold span; ring). lia. }
    assert (Hk : (kept <= 0 * day)%Z)
      by (apply days_times_day_mono; lia).
    simpl in Hk. unfold timedelta_max_days in Hc. lia.
Qed.

Lemma cleanup_retention_bounds_witness :
  let today := (739000 * day)%Z in
  let d := mk_ledger demo_conn [] [] [] true in
  (0 <= today <= datetime_max)%Z /\
  cleanup_stale_data today 4000000 d = (d, OverflowError) /\
  snd (cleanup_stale_data today 30 d) = Cleaned /\
  snd (cleanup_stale_data today (-1) d) = Cleaned.
Proof.
  cbv zeta.
  assert (Hr : (0 <= 739000 * day <= datetime_max)%Z)
    by (split; vm_compute; discriminate).
  split; [ exact Hr | ].
  split; [ | split ].
  - apply (proj1 (cleanup_retention_bounds _ 4000000%Z _ Hr)). vm_compute. discriminate.
  - apply (proj1 (proj2 (cleanup_retention_bounds _ 30%Z _ Hr)));
      vm_compute; discriminate.
  - apply (proj2 (proj2 (cleanup_retention_bounds _ (-1)%Z _ Hr)));
      [ reflexivity | vm_compute; discriminate ].
Defined.

(** X19.  A recorded event and the next cleanup.  [record_agent_event]
    appends one row, whose id it returns, with the tags and metadata
    given ([None] standing for no tags and for an empty mapping).  That
    row is still in the table after a cleanup exactly when it carries a
    protected tag, or the table does not stamp creation times, or the
    cutoff of the cleanup is not later than the database clock at the
    recording. *)
Theorem recorded_event_survives_iff (d : ledger)
    (agent_id kind title summary : string) (tags : option (list string))
    (trade_id : option uuid) (pnl pnl_percent : pyval) (metadata : option pyval)
    (today days_to_keep : Z) (cutoff : timestamp) :
  cutoff_date today days_to_keep = Some cutoff ->
  let out := record_agent_event agent_id kind title summary tags trade_id pnl
               pnl_percent metadata d in
  exists row,
    ops_agent_events (fst out) = ops_agent_events d ++ [row] /\
    e_id row = snd out /\
    e_tags row = list_or_empty tags /\
    e_metadata row = dict_or_empty metadata /\
    (In row (ops_agent_events (fst (cleanup_stale_data today days_to_keep (fst out))))
     <-> (is_protected row = true \/ events_stamped d = false \/
          (cutoff <= clock (session d))%Z)).
Proof.
  intros Hcut. cbv zeta. eexists. split; [ reflexivity | ].
  split; [ reflexivity | ]. split; [ reflexivity | ]. split; [ reflexivity | ].
  unfold cleanup_stale_data. rewrite Hcut.
  cbn [fst ops_agent_events record_agent_event].
  rewrite filter_In. unfold stale_event. cbn [e_created_at].
  split.
  - intros (_ & Hkeep).
    destruct (is_protected _); [ now left | right ].
    destruct (events_stamped d); [ right | now left ].
    simpl in Hkeep. rewrite andb_true_r in Hkeep.
    apply negb_true_iff, Z.ltb_ge in Hkeep. exact Hkeep.
  - intros Hwhy. split; [ apply in_or_app; right; now left | ].
    destruct Hwhy as [Hp | [Hs | Hlate]].
    + rewrite Hp. simpl. now rewrite andb_false_r.
    + rewrite Hs. reflexivity.
    + destruct (events_stamped d); [ | reflexivity ].
      simpl. apply Z.ltb_ge in Hlate. now rewrite Hlate.
Qed.

(** An untagged event recorded on day 1000 is gone after a cleanup run
    forty days later with thirty days of retention. *)
Lemma recorded_event_survives_iff_witness :
  let d := mk_ledger (at_time (1000 * day)%Z demo_conn) [] [] [] true in
  let out := record_agent_event "intel" "note" "BTC" "quiet day" None None PNone PNone
               None d in
  cutoff_date (1040 * day)%Z 30%Z = Some (1010 * day)%Z /\
  exists row,
    ops_agent_events (fst out) = [row] /\
    e_tags row = [] /\ e_metadata row = PDict [] /\
    ~ In row (ops_agent_events
                (fst (cleanup_stale_data (1040 * day)%Z 30%Z (fst out)))).
Proof.
  cbv zeta.
  assert (Hcut : cutoff_date (1040 * day)%Z 30%Z = Some (1010 * day)%Z)
    by (vm_compute; reflexivity).
  split; [ exact Hcut | ].
  destruct (recorded_event_survives_iff
              (mk_ledger (at_time (1000 * day)%Z demo_conn) [] [] [] true)
              "intel" "note" "BTC" "quiet day" None None PNone PNone None
              (1040 * day)%Z 30%Z (1010 * day)%Z Hcut)
    as (row & Happ & _ & Htags & Hmeta & Hiff).
  exists row. split; [ exact Happ | ]. split; [ exact Htags | ].
  split; [ exact Hmeta | ].
  intros Hin. apply Hiff in Hin. cbn [ops_agent_events app] in Happ.
  inversion Happ as [Hrow]. clear Happ Hiff Htags Hmeta.
  destruct Hin as [Hp | [Hs | Hlate]].
  - rewrite <- Hrow in Hp. vm_compute in Hp. discriminate.
  - discriminate.
  - vm_compute in Hlate. apply Hlate. reflexivity.
Defined.
